(** * Ticket rules: priority, category, escalation, routing and SLA

    A shallow embedding of the rule module of the ticketing application
    (the file exporting [SLA_RULES], [ESCALATION_RULES],
    [DEPARTMENT_ROUTING], [PRIORITY_KEYWORDS], [CATEGORY_KEYWORDS],
    [MEMBER_EXPERIENCE_KEYWORDS] and the utility functions over them),
    with the properties its specification states about it. *)

From Stdlib Require Import ZArith NArith List Bool Lia.
From Stdlib Require Import Strings.String Strings.Ascii.
From Stdlib Require QArith_base.
From stdpp Require Import base strings gmap.
Import ListNotations.

Local Open Scope string_scope.
Local Open Scope list_scope.

(** ** JavaScript strings

    A string is a sequence of code units.  The embedding covers the code
    units U+0000..U+00FF, one [ascii] each; every keyword of the tables is
    written in that range. *)
Module JSString.

(** [String.prototype.toLowerCase] on one code unit of the range: the
    letters A-Z and the Latin-1 capitals U+00C0..U+00DE (the multiplication
    sign U+00D7 apart) move up by 32, every other unit is kept. *)
Definition lowerUnit (c : ascii) : ascii :=
  let n := N_of_ascii c in
  if ((65 <=? n) && (n <=? 90) ||
      (192 <=? n) && (n <=? 222) && negb (n =? 215))%N
  then ascii_of_N (n + 32)
  else c.

Fixpoint toLowerCase (s : string) : string :=
  match s with
  | EmptyString => EmptyString
  | String c s' => String (lowerUnit c) (toLowerCase s')
  end.

(** [s.startsWith(p)]: [p] is read off the front of [s]. *)
Fixpoint startsWith (s p : string) {struct p} : bool :=
  match p, s with
  | EmptyString, _ => true
  | String _ _, EmptyString => false
  | String a p', String b s' => Ascii.eqb a b && startsWith s' p'
  end.

(** [s.includes(kw)]: [kw] occurs in [s] at some position, tried from the
    left.  The empty search string occurs in every string. *)
Fixpoint includes (s kw : string) : bool :=
  startsWith s kw ||
  match s with
  | EmptyString => false
  | String _ s' => includes s' kw
  end.

(** [kw] is a substring of [s]. *)
Definition substring_of (kw s : string) : Prop :=
  exists pre post, s = pre +:+ kw +:+ post.

(** [kw] is a case-insensitive substring of [s]: some substring of [s]
    equals [kw] once both are lower-cased. *)
Definition ci_substring_of (kw s : string) : Prop :=
  exists pre u post,
    s = pre +:+ u +:+ post /\ toLowerCase u = toLowerCase kw.

End JSString.

(** ** The rule tables *)
Module Rules.

(** [keyof typeof SLA_RULES]. *)
Inductive PriorityLevel := critical | high | medium | low.

(** The property name of a priority level. *)
Definition PriorityLevel_key (p : PriorityLevel) : string :=
  match p with
  | critical => "critical"
  | high => "high"
  | medium => "medium"
  | low => "low"
  end.

Record SLARule := {
  label : string;
  responseMinutes : Z;
  resolutionHours : Z;
  escalationHours : Z;
  description : string
}.

Definition SLA_RULES : list (string * SLARule) :=
  [ ("critical",
     {| label := "Critical"; responseMinutes := 15; resolutionHours := 2;
        escalationHours := 1;
        description := "Immediate response required for safety/security issues" |});
    ("high",
     {| label := "High"; responseMinutes := 60; resolutionHours := 8;
        escalationHours := 4;
        description := "Urgent issues affecting customer experience" |});
    ("medium",
     {| label := "Medium"; responseMinutes := 240; resolutionHours := 24;
        escalationHours := 12;
        description := "Standard priority for general issues" |});
    ("low",
     {| label := "Low"; responseMinutes := 480; resolutionHours := 72;
        escalationHours := 48;
        description := "Non-urgent requests and feedback" |}) ].

Record EscalationRule := {
  escalateTo : string;
  priority : string;
  immediate : bool;
  notifyLevel : string
}.

Definition mkEscalation (e p : string) (i : bool) (n : string) : EscalationRule :=
  {| escalateTo := e; priority := p; immediate := i; notifyLevel := n |}.

Definition ESCALATION_RULES : list (string * EscalationRule) :=
  [ ("Injury During Class", mkEscalation "Management" "critical" true "all");
    ("Medical Emergency", mkEscalation "Management" "critical" true "all");
    ("Theft", mkEscalation "Security" "critical" true "management");
    ("Safety Hazard", mkEscalation "Facilities" "critical" true "management");
    ("Fire/Emergency", mkEscalation "Management" "critical" true "all");
    ("Medical Disclosure", mkEscalation "HR" "high" true "department");
    ("Discrimination", mkEscalation "HR" "high" false "management");
    ("Staff Misconduct", mkEscalation "HR" "high" false "management");
    ("Payment Processing", mkEscalation "Finance" "high" false "department");
    ("Harassment", mkEscalation "HR" "high" true "management");
    ("Data Breach", mkEscalation "IT/Tech Support" "critical" true "all");
    ("Refund Request", mkEscalation "Finance" "medium" false "department");
    ("Equipment Damage", mkEscalation "Facilities" "medium" false "department");
    ("App Outage", mkEscalation "IT/Tech Support" "high" true "department") ].

Record Routing := {
  primary : string;
  secondary : string;
  escalationPath : list string
}.

Definition DEPARTMENT_ROUTING : list (string * Routing) :=
  [ ("Booking & Technology",
     {| primary := "IT/Tech Support"; secondary := "Operations";
        escalationPath := ["IT/Tech Support"; "Operations"; "Management"] |});
    ("Customer Service",
     {| primary := "Client Success"; secondary := "Operations";
        escalationPath := ["Client Success"; "Operations"; "Management"] |});
    ("Health & Safety",
     {| primary := "Operations"; secondary := "Facilities";
        escalationPath := ["Operations"; "Facilities"; "Management"] |});
    ("Retail Management",
     {| primary := "Sales"; secondary := "Operations";
        escalationPath := ["Sales"; "Operations"; "Finance"] |});
    ("Community & Culture",
     {| primary := "HR"; secondary := "Operations";
        escalationPath := ["HR"; "Operations"; "Management"] |});
    ("Sales & Marketing",
     {| primary := "Sales"; secondary := "Marketing";
        escalationPath := ["Sales"; "Marketing"; "Management"] |});
    ("Special Programs",
     {| primary := "Operations"; secondary := "Training";
        escalationPath := ["Operations"; "Training"; "Management"] |});
    ("Miscellaneous",
     {| primary := "Operations"; secondary := "Client Success";
        escalationPath := ["Operations"; "Client Success"; "Management"] |});
    ("Global",
     {| primary := "Management"; secondary := "Operations";
        escalationPath := ["Management"; "Operations"] |}) ].

(** The entries of [PRIORITY_KEYWORDS], in the order [Object.entries]
    yields them: the order the properties are written in. *)
Definition PRIORITY_KEYWORDS : list (PriorityLevel * list string) :=
  [ (critical,
     [ "emergency"; "injury"; "hurt"; "bleeding"; "unconscious"; "theft";
       "stolen"; "fire"; "safety hazard"; "medical emergency"; "cardiac";
       "ambulance"; "police"; "violence"; "assault"; "weapon"; "threat" ]);
    (high,
     [ "angry"; "furious"; "upset"; "complaint"; "refund"; "payment failed";
       "overcharged"; "rude staff"; "misconduct"; "discrimination";
       "harassment"; "unacceptable"; "demand"; "legal"; "lawyer"; "manager";
       "escalate"; "immediate"; "urgent" ]);
    (medium,
     [ "issue"; "problem"; "not working"; "broken"; "feedback"; "concern";
       "question"; "help"; "confused"; "disappointed"; "trouble";
       "incorrect" ]);
    (low,
     [ "suggestion"; "feature request"; "minor"; "when possible"; "no rush";
       "idea"; "consider"; "future"; "nice to have"; "optional" ]) ].

Definition CATEGORY_KEYWORDS : list (string * list string) :=
  [ ("Booking & Technology",
     [ "app"; "website"; "login"; "password"; "booking"; "reservation";
       "payment"; "credit card"; "crashed"; "error"; "bug"; "notification";
       "link"; "download"; "mobile"; "browser"; "account";
       "email verification"; "sync"; "loading" ]);
    ("Customer Service",
     [ "staff"; "front desk"; "service"; "attitude"; "rude"; "unhelpful";
       "wait time"; "response"; "communication"; "receptionist"; "greeting";
       "check-in"; "professional" ]);
    ("Health & Safety",
     [ "injury"; "hurt"; "accident"; "medical"; "unsafe"; "equipment broken";
       "cleaning"; "hygiene"; "covid"; "sanitize"; "ventilation";
       "temperature"; "slippery"; "hazard" ]);
    ("Retail Management",
     [ "product"; "merchandise"; "purchase"; "price"; "return"; "exchange";
       "size"; "stock"; "sold out"; "defective"; "quality"; "water bottle";
       "towel"; "mat" ]);
    ("Community & Culture",
     [ "member"; "clique"; "exclusion"; "discrimination"; "inclusive";
       "culture"; "behavior"; "community"; "atmosphere"; "welcoming";
       "friendly" ]);
    ("Sales & Marketing",
     [ "promotion"; "discount"; "membership"; "trial"; "referral";
       "advertisement"; "misleading"; "social media"; "package"; "pricing";
       "contract"; "cancellation" ]);
    ("Special Programs",
     [ "workshop"; "event"; "private session"; "corporate"; "challenge";
       "competition"; "special class"; "masterclass"; "retreat"; "popup" ]) ].

Definition MEMBER_EXPERIENCE_KEYWORDS : list string :=
  [ "class"; "trainer"; "instructor"; "teacher"; "session"; "workout";
    "exercise"; "form"; "technique"; "music"; "volume"; "pace"; "level";
    "difficulty"; "crowded"; "space"; "equipment"; "mat"; "props"; "late";
    "early"; "substitution"; "sub"; "replacement"; "quality"; "experience";
    "vibe" ].

End Rules.

(** ** Object literals read by a computed key *)
Module JSObject.

(** The property names every object literal inherits from
    [Object.prototype]: a table written as [{ ... }] has that prototype, and
    a property read [o[key]] that finds no own property continues there. *)
Definition Object_prototype : list string :=
  [ "constructor"; "hasOwnProperty"; "isPrototypeOf"; "propertyIsEnumerable";
    "toLocaleString"; "toString"; "valueOf"; "__proto__";
    "__defineGetter__"; "__defineSetter__"; "__lookupGetter__";
    "__lookupSetter__" ].

(** What a read of a table can produce.  [Inherited name] is the member of
    [Object.prototype] of that name: a function, and for ["__proto__"] the
    prototype object itself; none of them is an entry of the table. *)
Inductive value (A : Type) : Type :=
  | Entry (a : A)
  | Inherited (name : string)
  | Undefined
  | Null.

Arguments Entry {A} a.
Arguments Inherited {A} name.
Arguments Undefined {A}.
Arguments Null {A}.

(** The own property of that exact name, when there is one. *)
Fixpoint getOwn {A : Type} (o : list (string * A)) (key : string) : option A :=
  match o with
  | [] => None
  | (k, a) :: rest => if String.eqb key k then Some a else getOwn rest key
  end.

Definition inheritedName (key : string) : bool :=
  existsb (String.eqb key) Object_prototype.

(** [o[key]]. *)
Definition get {A : Type} (o : list (string * A)) (key : string) : value A :=
  match getOwn o key with
  | Some a => Entry a
  | None => if inheritedName key then Inherited key else Undefined
  end.

(** [ToBoolean]: objects and functions are truthy, [undefined] and [null]
    are not. *)
Definition truthy {A : Type} (v : value A) : bool :=
  match v with
  | Entry _ | Inherited _ => true
  | Undefined | Null => false
  end.

(** [v || w]. *)
Definition or_else {A : Type} (v w : value A) : value A :=
  if truthy v then v else w.

End JSObject.

(** ** Classification and routing *)
Module Engine.
Import JSString JSObject Rules.

(** The inner loop of [detectPriority] and of [requiresClassDetails]:
    [true] at the first keyword found in [lowerText]. *)
Fixpoint scanKeywords (lowerText : string) (keywords : list string) : bool :=
  match keywords with
  | [] => false
  | keyword :: rest =>
      if includes lowerText (toLowerCase keyword) then true
      else scanKeywords lowerText rest
  end.

(** The outer loop of [detectPriority]: the key of the first entry whose
    keywords are hit; [None] when the loop runs to its end. *)
Fixpoint scanTiers {K : Type} (lowerText : string)
    (entries : list (K * list string)) : option K :=
  match entries with
  | [] => None
  | (priority, keywords) :: rest =>
      if scanKeywords lowerText keywords then Some priority
      else scanTiers lowerText rest
  end.

Definition detectPriority (text : string) : PriorityLevel :=
  let lowerText := toLowerCase text in
  match scanTiers lowerText PRIORITY_KEYWORDS with
  | Some priority => priority
  | None => medium
  end.

(** The inner loop of [detectCategory], [matches] being the counter. *)
Fixpoint countMatches (lowerText : string) (keywords : list string)
    (matches : nat) : nat :=
  match keywords with
  | [] => matches
  | keyword :: rest =>
      countMatches lowerText rest
        (if includes lowerText (toLowerCase keyword) then S matches
         else matches)
  end.

(** The outer loop of [detectCategory] over the remaining entries, with the
    two variables it updates. *)
Fixpoint scanCategories (lowerText : string)
    (entries : list (string * list string))
    (bestMatch : string) (maxMatches : nat) : string :=
  match entries with
  | [] => bestMatch
  | (category, keywords) :: rest =>
      let matches := countMatches lowerText keywords 0 in
      if (maxMatches <? matches)%nat
      then scanCategories lowerText rest category matches
      else scanCategories lowerText rest bestMatch maxMatches
  end.

Definition detectCategory (text : string) : string :=
  let lowerText := toLowerCase text in
  scanCategories lowerText CATEGORY_KEYWORDS "Customer Service" 0.

Definition requiresClassDetails (text priority category : string) : bool :=
  let lowerText := toLowerCase text in
  if String.eqb priority "critical" then true
  else if String.eqb category "Customer Service"
          || String.eqb category "Health & Safety"
  then scanKeywords lowerText MEMBER_EXPERIENCE_KEYWORDS
  else false.

Definition getEscalationRule (subcategory : string) : value EscalationRule :=
  or_else (get ESCALATION_RULES subcategory) Null.

Definition getDepartmentRouting (category : string) : value Routing :=
  or_else (get DEPARTMENT_ROUTING category)
          (get DEPARTMENT_ROUTING "Miscellaneous").

End Engine.

(** ** Dates

    A [Date] object is a mutable cell holding a time value: milliseconds
    since the epoch, or [NaN] for an invalid date.  Objects live in a store
    and are passed by reference. *)
Module JSDate.
Local Open Scope Z_scope.

(** The numbers the date arithmetic meets: integers, and [NaN].  Time values
    are integers below 2^53 in magnitude, so the double arithmetic on them is
    exact; a difference of two of them can be rounded once it exceeds 2^53,
    which changes no comparison with a bound below 2^53. *)
Inductive number := NaN | Num (z : Z).

Definition add (a b : number) : number :=
  match a, b with Num x, Num y => Num (x + y) | _, _ => NaN end.

Definition sub (a b : number) : number :=
  match a, b with Num x, Num y => Num (x - y) | _, _ => NaN end.

(** [a > b] and [a <= b]: a comparison with [NaN] is false. *)
Definition gt (a b : number) : bool :=
  match a, b with Num x, Num y => y <? x | _, _ => false end.

Definition le (a b : number) : bool :=
  match a, b with Num x, Num y => x <=? y | _, _ => false end.

Definition msPerSecond : Z := 1000.
Definition msPerMinute : Z := 60000.
Definition msPerHour : Z := 3600000.
Definition msPerDay : Z := 86400000.

Definition Day (t : Z) : Z := t / msPerDay.
Definition HourFromTime (t : Z) : Z := (t / msPerHour) mod 24.
Definition MinFromTime (t : Z) : Z := (t / msPerMinute) mod 60.
Definition SecFromTime (t : Z) : Z := (t / msPerSecond) mod 60.
Definition msFromTime (t : Z) : Z := t mod msPerSecond.

Definition MakeTime (hour min sec ms : Z) : Z :=
  hour * msPerHour + min * msPerMinute + sec * msPerSecond + ms.

Definition MakeDate (day time : Z) : Z := day * msPerDay + time.

Definition maxTime : Z := 8640000000000000.

Definition TimeClip (t : Z) : number :=
  if Z.abs t <=? maxTime then Num t else NaN.

(** The time zone of the host: the offset of local time from UTC, in
    milliseconds, at a UTC time value and at a local time value.  At a local
    time that a transition repeats or skips, [offsetAtLocal] is the offset
    before the transition. *)
Record TimeZone := {
  offsetAtUTC : Z -> Z;
  offsetAtLocal : Z -> Z
}.

Definition LocalTime (tz : TimeZone) (t : Z) : Z := t + offsetAtUTC tz t.
Definition UTC (tz : TimeZone) (t : Z) : Z := t - offsetAtLocal tz t.

(** The host: its clock, read by [new Date()], and its time zone. *)
Record Host := {
  now : Z;
  zone : TimeZone
}.

(** The store of [Date] objects; a reference is an index into it. *)
Definition loc := nat.
Definition heap := list number.

(** Computations over the store.  [None] is a thrown [TypeError], or the
    use of a reference to no object of the store, which no program holds. *)
Definition M (A : Type) : Type := heap -> option (A * heap).

Definition ret {A : Type} (a : A) : M A := fun h => Some (a, h).

Definition throw {A : Type} : M A := fun _ => None.

Definition bind {A B : Type} (c : M A) (k : A -> M B) : M B :=
  fun h => match c h with
           | Some (a, h') => k a h'
           | None => None
           end.

Notation "x <- c ;; k" := (bind c (fun x => k))
  (at level 100, c at next level, right associativity).
Notation "c ;;; k" := (bind c (fun _ => k))
  (at level 100, right associativity).

(** Allocation of a fresh object holding [tv]. *)
Definition alloc (tv : number) : M loc :=
  fun h => Some (length h, app h [tv]).

Definition thisTimeValue (d : loc) : M number :=
  fun h => match h !! d with
           | Some tv => Some (tv, h)
           | None => None
           end.

Definition setTimeValue (d : loc) (tv : number) : M unit :=
  fun h => match h !! d with
           | Some _ => Some (tt, <[d := tv]> h)
           | None => None
           end.

Section WithHost.
Variable host : Host.

(** [new Date()]: the reading of the clock is a time value. *)
Definition newDate : M loc := alloc (Num (now host)).

(** [new Date(value)] for a [Date] object [value]: a new object with the
    time value of [value]. *)
Definition newDateFrom (value : loc) : M loc :=
  tv <- thisTimeValue value ;; alloc tv.

Definition getTime (d : loc) : M number := thisTimeValue d.

Definition getHours (d : loc) : M number :=
  tv <- thisTimeValue d ;;
  ret match tv with
      | NaN => NaN
      | Num t => Num (HourFromTime (LocalTime (zone host) t))
      end.

(** [d.setHours(hour)]: the hour field of the local time is replaced, the
    minutes, seconds and milliseconds kept, and the result read back as a
    local time. *)
Definition setHours (d : loc) (hour : number) : M number :=
  tv <- thisTimeValue d ;;
  match tv with
  | NaN => ret NaN
  | Num t0 =>
      let u :=
        match hour with
        | NaN => NaN
        | Num h =>
            let t := LocalTime (zone host) t0 in
            let date :=
              MakeDate (Day t)
                (MakeTime h (MinFromTime t) (SecFromTime t) (msFromTime t)) in
            TimeClip (UTC (zone host) date)
        end in
      setTimeValue d u ;;; ret u
  end.

End WithHost.

End JSDate.

(** ** Service-level deadlines *)
Module SLA.
Import JSObject Rules JSDate.
Local Open Scope Z_scope.

(** [SLA_RULES[priority]], bound to [sla] and then read for a field.  A key
    of the type names an own property; reading a field of anything else is
    outside the typed program and is modelled as the throw it is for
    [undefined]. *)
Definition slaOf (priority : PriorityLevel) : M SLARule :=
  match get SLA_RULES (PriorityLevel_key priority) with
  | Entry sla => ret sla
  | _ => throw
  end.

Section WithHost.
Variable host : Host.

(** [createdAt] is optional: [None] is the call without the argument, where
    the default [new Date()] is evaluated. *)
Definition calculateSLADeadline (priority : PriorityLevel)
    (createdAt : option loc) : M loc :=
  createdAt <- match createdAt with
               | Some d => ret d
               | None => newDate host
               end ;;
  sla <- slaOf priority ;;
  deadline <- newDateFrom createdAt ;;
  hours <- getHours host deadline ;;
  setHours host deadline (add hours (Num (resolutionHours sla))) ;;;
  ret deadline.

Definition isNearingSLA (slaDueAt : loc) (priority : PriorityLevel) : M bool :=
  now <- newDate host ;;
  sla <- slaOf priority ;;
  let warningThreshold := Num (escalationHours sla * 60 * 60 * 1000) in
  due <- getTime slaDueAt ;;
  cur <- getTime now ;;
  let timeRemaining := sub due cur in
  ret (gt timeRemaining (Num 0) && le timeRemaining warningThreshold).

Definition isSLABreached (slaDueAt : loc) : M bool :=
  now <- newDate host ;;
  cur <- getTime now ;;
  due <- getTime slaDueAt ;;
  ret (gt cur due).

End WithHost.

End SLA.

(** ** Two time zones *)
Module Zones.
Import JSDate.
Local Open Scope Z_scope.

Definition utc : TimeZone :=
  {| offsetAtUTC := fun _ => 0; offsetAtLocal := fun _ => 0 |}.

(** America/New_York around the end of daylight saving time in 2024: at
    2024-11-03T06:00:00Z, which is 02:00 EDT, the clocks go back to 01:00
    EST.  A local time before 02:00 of that day is read as EDT, the repeated
    hour included. *)
Definition fallBack2024 : Z := 1730613600000.
Definition EDT : Z := -4 * msPerHour.
Definition EST : Z := -5 * msPerHour.

Definition newYork : TimeZone :=
  {| offsetAtUTC := fun t => if t <? fallBack2024 then EDT else EST;
     offsetAtLocal := fun t => if t <? fallBack2024 + EDT then EDT else EST |}.

(** Antarctica/Casey in March 2020: at 2020-03-07T16:00:00Z, which is 03:00
    of 8 March at UTC+11, the station went from UTC+11 to UTC+8 and its
    clocks back to 00:00.  A local time before 03:00 of that day is read at
    UTC+11, the three repeated hours included. *)
Definition setBack2020 : Z := 1583596800000.

Definition casey : TimeZone :=
  {| offsetAtUTC :=
       fun t => if t <? setBack2020 then 11 * msPerHour else 8 * msPerHour;
     offsetAtLocal :=
       fun t => if t <? setBack2020 + 11 * msPerHour
                then 11 * msPerHour else 8 * msPerHour |}.

End Zones.

(** ** The properties, in the words of the specification *)
Module Spec.
Import JSString JSObject Rules JSDate.

(** Some keyword of the tier is a case-insensitive substring of the text. *)
Definition tier_hit (keywords : list string) (text : string) : Prop :=
  exists kw, In kw keywords /\ ci_substring_of kw text.

(** [p] is the first tier of the table that is hit: the table splits at the
    entry of [p], that entry is hit and no entry before it is.  Nothing is
    asked of the entries after it. *)
Definition first_hit {K : Type} (entries : list (K * list string))
    (text : string) (p : K) : Prop :=
  exists before kws after,
    entries = app before ((p, kws) :: after) /\
    tier_hit kws text /\
    Forall (fun e => ~ tier_hit (snd e) text) before.

Definition no_hit {K : Type} (entries : list (K * list string))
    (text : string) : Prop :=
  Forall (fun e => ~ tier_hit (snd e) text) entries.

(** The keywords of the tables are written in lower case. *)
Definition lowercase (s : string) : Prop := toLowerCase s = s.

(** Every keyword of every entry is in lower case. *)
Definition lowercase_table (entries : list (string * list string)) : Prop :=
  Forall (fun e => Forall lowercase (snd e)) entries.

(** How many of the keywords are substrings of the lower-cased text. *)
Definition keyword_count (keywords : list string) (text : string) : nat :=
  length (List.filter (fun kw => includes (toLowerCase text) kw) keywords).

(** [c] has the greatest count, and is the first entry of the table to reach
    it: every entry before it counts strictly less, no entry after it counts
    more, and the count is not zero. *)
Definition first_greatest (entries : list (string * list string))
    (text : string) (c : string) : Prop :=
  exists before kws after,
    entries = app before ((c, kws) :: after) /\
    (0 < keyword_count kws text)%nat /\
    Forall (fun e => (keyword_count (snd e) text < keyword_count kws text)%nat)
           before /\
    Forall (fun e => (keyword_count (snd e) text <= keyword_count kws text)%nat)
           after.

Definition all_zero (entries : list (string * list string))
    (text : string) : Prop :=
  Forall (fun e => keyword_count (snd e) text = 0%nat) entries.

Local Open Scope Z_scope.

(** The budgets of a priority, read off [SLA_RULES]. *)
Definition resolutionHoursOf (p : PriorityLevel) : Z :=
  match getOwn SLA_RULES (PriorityLevel_key p) with
  | Some sla => resolutionHours sla
  | None => 0
  end.

Definition escalationHoursOf (p : PriorityLevel) : Z :=
  match getOwn SLA_RULES (PriorityLevel_key p) with
  | Some sla => escalationHours sla
  | None => 0
  end.

(** A time value within the range of [Date]. *)
Definition inRange (t : Z) : Prop := Z.abs t <= maxTime.

(** The local offset is the same at [t0] and at the local time [hours]
    later: no transition of the zone lies between the two. *)
Definition steadyOffset (tz : TimeZone) (t0 hours : Z) : Prop :=
  offsetAtLocal tz (LocalTime tz t0 + hours * msPerHour) = offsetAtUTC tz t0.

(** [t0] advanced by [hours] on the local calendar: the local reading of
    [t0] with [hours] added to its hour, read back as an instant. *)
Definition calendarAdd (tz : TimeZone) (t0 hours : Z) : Z :=
  UTC tz (LocalTime tz t0 + hours * msPerHour).

(** The offsets of the zone differ from one another by less than [hours]:
    its clock is never set back by that much. *)
Definition shiftsShorterThan (tz : TimeZone) (hours : Z) : Prop :=
  forall t l, offsetAtLocal tz l - offsetAtUTC tz t < hours * msPerHour.


(** The time value [calculateSLADeadline] leaves in the object it returns. *)
Definition deadlineValue (tz : TimeZone) (p : PriorityLevel) (tv : number)
    : number :=
  match tv with
  | NaN => NaN
  | Num t0 =>
      TimeClip (UTC tz (LocalTime tz t0 + resolutionHoursOf p * msPerHour))
  end.

End Spec.

(** ** More of the string library *)
Module JSStringMore.
Import JSString.

(** The white space and line terminators of the range, which
    [String.prototype.trim] strips: U+0009..U+000D, U+0020 and U+00A0. *)
Definition isWhiteSpace (c : ascii) : bool :=
  let n := N_of_ascii c in
  ((9 <=? n) && (n <=? 13) || (n =? 32) || (n =? 160))%N.

Fixpoint trimStart (s : string) : string :=
  match s with
  | EmptyString => EmptyString
  | String c s' => if isWhiteSpace c then trimStart s' else s
  end.

Fixpoint trimEnd (s : string) : string :=
  match s with
  | EmptyString => EmptyString
  | String c s' =>
      match trimEnd s' with
      | EmptyString => if isWhiteSpace c then EmptyString else String c EmptyString
      | r => String c r
      end
  end.

Definition trim (s : string) : string := trimEnd (trimStart s).

(** [s.split(sep)] for a separator of one code unit: the pieces between
    the separators, one piece more than there are separators. *)
Fixpoint split (sep : ascii) (s : string) : list string :=
  match s with
  | EmptyString => [EmptyString]
  | String c s' =>
      if Ascii.eqb c sep then EmptyString :: split sep s'
      else match split sep s' with
           | w :: ws => String c w :: ws
           | [] => [String c EmptyString]
           end
  end.

(** [pieces.join(sep)]. *)
Fixpoint join (sep : string) (pieces : list string) : string :=
  match pieces with
  | [] => EmptyString
  | [w] => w
  | w :: ws => w +:+ sep +:+ join sep ws
  end.

(** [s.substring(0, n)]: the first [n] code units, all of [s] when it is
    shorter. *)
Fixpoint substring0 (n : nat) (s : string) : string :=
  match n, s with
  | O, _ => EmptyString
  | _, EmptyString => EmptyString
  | S n', String c s' => String c (substring0 n' s')
  end.

(** The number of occurrences of a code unit. *)
Fixpoint occurrences (c : ascii) (s : string) : nat :=
  match s with
  | EmptyString => 0
  | String d s' => (if Ascii.eqb d c then 1 else 0) + occurrences c s'
  end.

End JSStringMore.

(** ** The title of a ticket, from its description *)
Module Title.
Import JSString JSStringMore.

Definition generateTicketTitle (description categoryName : string) : string :=
  let lowerDesc := toLowerCase description in
  if includes lowerDesc "complaint"
  then "Customer Complaint - " +:+ categoryName
  else if includes lowerDesc "trainer" && includes lowerDesc "late"
  then "Trainer Delayed for Scheduled Session"
  else if includes lowerDesc "equipment"
          && (includes lowerDesc "broken" || includes lowerDesc "issue")
  then "Equipment Issue Reported by Member"
  else if includes lowerDesc "app"
          && (includes lowerDesc "crash" || includes lowerDesc "error")
  then "App Technical Issue - User Report"
  else if includes lowerDesc "parking"
  then "Parking/Access Issue at Studio"
  else if includes lowerDesc "rude" || includes lowerDesc "unfriendly"
  then "Staff Conduct Feedback - Member Report"
  else if includes lowerDesc "refund"
  then "Refund Request - Member Account"
  else if includes lowerDesc "injury" || includes lowerDesc "hurt"
  then "Member Injury Report - Immediate Attention"
  else if includes lowerDesc "class" && includes lowerDesc "cancel"
  then "Class Cancellation Issue"
  else if includes lowerDesc "payment" || includes lowerDesc "charge"
  then "Billing/Payment Concern"
  else if includes lowerDesc "booking"
  then "Booking System Issue"
  else
    let words := join " " (firstn 8 (split " "%char description)) in
    categoryName +:+ ": " +:+ words +:+
    (if (50 <? String.length description)%nat then "..." else "").

(** The words the patterns of [generateTicketTitle] look for. *)
Definition patternWords : list string :=
  [ "complaint"; "trainer"; "late"; "equipment"; "broken"; "issue"; "app";
    "crash"; "error"; "parking"; "rude"; "unfriendly"; "refund"; "injury";
    "hurt"; "class"; "cancel"; "payment"; "charge"; "booking" ].

End Title.

(** ** The tags of the ticket preview *)
Module TagEditor.
Import JSString JSStringMore.

(** The state the two handlers act on: the tags of the previewed ticket,
    which the owner of the data replaces by the list it is handed, the text
    of the input field, and the field being edited. *)
Record state := {
  tags : list string;
  newTag : string;
  editingField : option string
}.

(** [updateField('tags', value)]: the new list is handed to the owner and
    no field is being edited any more. *)
Definition updateTags (value : list string) (st : state) : state :=
  {| tags := value; newTag := newTag st; editingField := None |}.

(** [addTag]: a tag is added when the trimmed input is not empty and not
    among the tags; the input is then cleared.  Otherwise nothing changes. *)
Definition addTag (st : state) : state :=
  if negb (String.eqb (trim (newTag st)) "")
     && negb (existsb (String.eqb (trim (newTag st))) (tags st))
  then
    let st' := updateTags (app (tags st) [trim (newTag st)]) st in
    {| tags := tags st'; newTag := ""; editingField := editingField st' |}
  else st.

(** [removeTag]: the tags other than [tag] are kept, in their order. *)
Definition removeTag (tag : string) (st : state) : state :=
  updateTags (List.filter (fun t => negb (String.eqb t tag)) (tags st)) st.

End TagEditor.

(** ** The quick-feedback chips of the trainer feedback form *)
Module Feedback.

Inductive chipType := positive | improvement.

(** The two lists of the form data that [toggleQuickFeedback] touches; the
    other fields of the form are copied as they are. *)
Record chips := {
  positiveHighlights : list string;
  improvementAreas : list string
}.

(** [current.includes(item) ? current.filter(i => i !== item)
                            : [...current, item]]. *)
Definition toggle (current : list string) (item : string) : list string :=
  if existsb (String.eqb item) current
  then List.filter (fun i => negb (String.eqb i item)) current
  else app current [item].

Definition toggleQuickFeedback (type : chipType) (item : string)
    (prev : chips) : chips :=
  match type with
  | positive =>
      {| positiveHighlights := toggle (positiveHighlights prev) item;
         improvementAreas := improvementAreas prev |}
  | improvement =>
      {| positiveHighlights := positiveHighlights prev;
         improvementAreas := toggle (improvementAreas prev) item |}
  end.

End Feedback.

(** ** The template gallery *)
Module Gallery.
Import JSString.

(** The fields of a template that the gallery reads. *)
Record TicketTemplate := {
  id : string;
  name : string;
  description : string;
  category : string;
  priority : string;
  tags : list string
}.

Section Filters.
(** The search text, the category filter (["all"] for none) and the
    priority filter ([None] is [null]). *)
Variables (searchQuery categoryFilter : string) (priorityFilter : option string).

Definition matchesSearch (template : TicketTemplate) : bool :=
  String.eqb searchQuery ""
  || includes (toLowerCase (name template)) (toLowerCase searchQuery)
  || includes (toLowerCase (description template)) (toLowerCase searchQuery)
  || existsb (fun tag => includes (toLowerCase tag) (toLowerCase searchQuery))
             (tags template).

Definition matchesCategory (template : TicketTemplate) : bool :=
  String.eqb categoryFilter "all"
  || String.eqb (category template) categoryFilter.

(** [!priorityFilter] holds of [null] and of the empty string. *)
Definition matchesPriority (template : TicketTemplate) : bool :=
  match priorityFilter with
  | None => true
  | Some f => String.eqb f "" || String.eqb (priority template) f
  end.

Definition filteredTemplates (TICKET_TEMPLATES : list TicketTemplate)
    : list TicketTemplate :=
  List.filter
    (fun template =>
       matchesSearch template && matchesCategory template
       && matchesPriority template)
    TICKET_TEMPLATES.

End Filters.

(** [toggleFavorite], as the update of the set of favourites. *)
Definition toggleFavorite (templateId : string) (prev : gset string)
    : gset string :=
  if bool_decide (templateId ∈ prev)
  then prev ∖ {[ templateId ]}
  else prev ∪ {[ templateId ]}.

Definition sortedTemplates (filteredTemplates : list TicketTemplate)
    (favoriteTemplates : gset string) : list TicketTemplate :=
  let favorites :=
    List.filter (fun t => bool_decide (id t ∈ favoriteTemplates))
                filteredTemplates in
  let nonFavorites :=
    List.filter (fun t => negb (bool_decide (id t ∈ favoriteTemplates)))
                filteredTemplates in
  app favorites nonFavorites.

End Gallery.

(** ** The analysis function of the server

    The server keeps tables and detection functions of its own, which its
    fallback analysis uses when the model cannot be asked or answers what
    cannot be read. *)
Module Edge.
Import JSString JSStringMore JSObject.

Record SLARule := {
  responseHours : QArith_base.Q;
  resolutionHours : Z;
  escalationHours : Z
}.

Definition SLA_RULES : list (string * SLARule) :=
  [ ("critical",
     {| responseHours := QArith_base.Qmake 1 4; resolutionHours := 2;
        escalationHours := 1 |});
    ("high",
     {| responseHours := QArith_base.Qmake 1 1; resolutionHours := 8;
        escalationHours := 4 |});
    ("medium",
     {| responseHours := QArith_base.Qmake 4 1; resolutionHours := 24;
        escalationHours := 12 |});
    ("low",
     {| responseHours := QArith_base.Qmake 8 1; resolutionHours := 72;
        escalationHours := 48 |}) ].

Record EscalationRule := {
  escalateTo : string;
  priority : string;
  immediate : bool
}.

Definition ESCALATION_RULES : list (string * EscalationRule) :=
  [ ("Injury During Class",
     {| escalateTo := "Management"; priority := "critical"; immediate := true |});
    ("Medical Disclosure",
     {| escalateTo := "HR"; priority := "high"; immediate := true |});
    ("Theft",
     {| escalateTo := "Security"; priority := "critical"; immediate := true |});
    ("Discrimination",
     {| escalateTo := "HR"; priority := "high"; immediate := false |});
    ("Staff Misconduct",
     {| escalateTo := "HR"; priority := "high"; immediate := false |});
    ("Payment Processing",
     {| escalateTo := "Finance"; priority := "high"; immediate := false |});
    ("Emergency",
     {| escalateTo := "Management"; priority := "critical"; immediate := true |}) ].

Record Routing := {
  department : string;
  fallback : string
}.

Definition DEPARTMENT_ROUTING : list (string * Routing) :=
  [ ("Booking & Technology",
     {| department := "IT/Tech Support"; fallback := "Operations" |});
    ("Customer Service",
     {| department := "Client Success"; fallback := "Operations" |});
    ("Health & Safety",
     {| department := "Operations"; fallback := "Management" |});
    ("Retail Management",
     {| department := "Sales"; fallback := "Operations" |});
    ("Community & Culture",
     {| department := "HR"; fallback := "Operations" |});
    ("Sales & Marketing",
     {| department := "Sales"; fallback := "Marketing" |});
    ("Special Programs",
     {| department := "Operations"; fallback := "Training" |});
    ("Miscellaneous",
     {| department := "Operations"; fallback := "Client Success" |});
    ("Global",
     {| department := "Management"; fallback := "Operations" |}) ].

Definition PRIORITY_KEYWORDS : list (string * list string) :=
  [ ("critical",
     [ "emergency"; "injury"; "hurt"; "bleeding"; "unconscious"; "theft";
       "stolen"; "fire"; "safety hazard"; "medical emergency" ]);
    ("high",
     [ "angry"; "furious"; "upset"; "complaint"; "refund"; "payment failed";
       "overcharged"; "rude staff"; "misconduct"; "discrimination";
       "harassment" ]);
    ("medium",
     [ "issue"; "problem"; "not working"; "broken"; "feedback"; "concern";
       "question" ]);
    ("low",
     [ "suggestion"; "feature request"; "minor"; "when possible"; "no rush" ]) ].

Definition CATEGORY_KEYWORDS : list (string * list string) :=
  [ ("Booking & Technology",
     [ "app"; "website"; "login"; "password"; "booking"; "reservation";
       "payment"; "credit card"; "crashed"; "error"; "bug"; "notification" ]);
    ("Customer Service",
     [ "staff"; "front desk"; "service"; "attitude"; "rude"; "unhelpful";
       "wait time"; "response"; "communication" ]);
    ("Health & Safety",
     [ "injury"; "hurt"; "accident"; "medical"; "unsafe"; "equipment broken";
       "cleaning"; "hygiene"; "covid"; "sanitize" ]);
    ("Retail Management",
     [ "product"; "merchandise"; "purchase"; "price"; "return"; "exchange";
       "size"; "stock"; "sold out" ]);
    ("Community & Culture",
     [ "member"; "clique"; "exclusion"; "discrimination"; "inclusive";
       "culture"; "behavior" ]);
    ("Sales & Marketing",
     [ "promotion"; "discount"; "membership"; "trial"; "referral";
       "advertisement"; "misleading"; "social media" ]);
    ("Special Programs",
     [ "workshop"; "event"; "private session"; "corporate"; "challenge";
       "competition" ]) ].

(** The inner loops of the server search for the keyword as it is written,
    without lower-casing it. *)
Fixpoint scanKeywords (lowerText : string) (keywords : list string) : bool :=
  match keywords with
  | [] => false
  | keyword :: rest =>
      if includes lowerText keyword then true
      else scanKeywords lowerText rest
  end.

Fixpoint scanTiers (lowerText : string)
    (entries : list (string * list string)) : option string :=
  match entries with
  | [] => None
  | (priority, keywords) :: rest =>
      if scanKeywords lowerText keywords then Some priority
      else scanTiers lowerText rest
  end.

Definition detectPriorityFromText (text : string) : string :=
  let lowerText := toLowerCase text in
  match scanTiers lowerText PRIORITY_KEYWORDS with
  | Some priority => priority
  | None => "medium"
  end.

Fixpoint countMatches (lowerText : string) (keywords : list string)
    (matches : nat) : nat :=
  match keywords with
  | [] => matches
  | keyword :: rest =>
      countMatches lowerText rest
        (if includes lowerText keyword then S matches else matches)
  end.

Fixpoint scanCategories (lowerText : string)
    (entries : list (string * list string))
    (bestMatch : string) (maxMatches : nat) : string :=
  match entries with
  | [] => bestMatch
  | (category, keywords) :: rest =>
      let matches := countMatches lowerText keywords 0 in
      if (maxMatches <? matches)%nat
      then scanCategories lowerText rest category matches
      else scanCategories lowerText rest bestMatch maxMatches
  end.

Definition detectCategoryFromText (text : string) : string :=
  let lowerText := toLowerCase text in
  scanCategories lowerText CATEGORY_KEYWORDS "Customer Service" 0.

(** [routing?.department || 'Operations'] for the value [routing] of a read
    of the routing table: only an entry of the table has a department. *)
Definition departmentOr (routing : value Routing) (default : string) : string :=
  match routing with
  | Entry r => if String.eqb (department r) "" then default else department r
  | _ => default
  end.

(** The answer of the fallback analysis. *)
Record Analysis := {
  title : string;
  improvedDescription : string;
  category : string;
  analysisPriority : string;
  analysisDepartment : string;
  suggestedTags : list string;
  clientMood : string;
  needsImmediateAttention : bool;
  sla : value SLARule
}.

(** The analysis made when the model cannot be asked: the object the
    handler answers with in that case. *)
Definition fallbackAnalysis (description : string) : Analysis :=
  let detectedPriority := detectPriorityFromText description in
  let detectedCategory := detectCategoryFromText description in
  {| title := substring0 60 description;
     improvedDescription := description;
     category := detectedCategory;
     analysisPriority := detectedPriority;
     analysisDepartment :=
       departmentOr (get DEPARTMENT_ROUTING detectedCategory) "Operations";
     suggestedTags := ["support"; "needs-review"];
     clientMood := "calm";
     needsImmediateAttention := String.eqb detectedPriority "critical";
     sla := or_else (get SLA_RULES detectedPriority)
                    (get SLA_RULES "medium") |}.

End Edge.

(** ** Further notions used in the statements *)
Module SpecMore.
Import JSString JSStringMore JSObject Rules JSDate Spec.

(** The place of a tier in the order [detectPriority] scans them. *)
Definition precedence (p : PriorityLevel) : nat :=
  match p with
  | critical => 0
  | high => 1
  | medium => 2
  | low => 3
  end.

(** The keywords of a tier of [PRIORITY_KEYWORDS]. *)
Definition tierKeywords (p : PriorityLevel) : list string :=
  match List.find (fun e => Nat.eqb (precedence (fst e)) (precedence p))
                  PRIORITY_KEYWORDS with
  | Some e => snd e
  | None => []
  end.

(** A list of keywords that are distinct, not empty and in lower case. *)
Definition clean_keywords (keywords : list string) : Prop :=
  List.NoDup keywords /\
  Forall (fun kw => kw <> "" /\ lowercase kw) keywords.

(** The keywords the server lists for a tier. *)
Definition serverKeywords (tier : string) : list string :=
  match getOwn Edge.PRIORITY_KEYWORDS tier with
  | Some keywords => keywords
  | None => []
  end.

(** A string that does not begin with white space. *)
Definition noLeadingSpace (s : string) : Prop :=
  match s with
  | EmptyString => True
  | String c _ => isWhiteSpace c = false
  end.

(** A string of white space only. *)
Fixpoint blank (s : string) : bool :=
  match s with
  | EmptyString => true
  | String c s' => isWhiteSpace c && blank s'
  end.

(** Tags that are distinct, not empty and trimmed. *)
Definition clean_tags (tags : list string) : Prop :=
  List.NoDup tags /\
  Forall (fun t => t <> "" /\ trim t = t) tags.

(** The list of chips a type selects, and the other one. *)
Definition selected (type : Feedback.chipType) (c : Feedback.chips)
    : list string :=
  match type with
  | Feedback.positive => Feedback.positiveHighlights c
  | Feedback.improvement => Feedback.improvementAreas c
  end.

Definition unselected (type : Feedback.chipType) (c : Feedback.chips)
    : list string :=
  match type with
  | Feedback.positive => Feedback.improvementAreas c
  | Feedback.improvement => Feedback.positiveHighlights c
  end.

(** [s] begins with [p]. *)
Definition prefix_of (p s : string) : Prop := exists rest, s = p +:+ rest.

(** The local offset read at the UTC time of the local time [t] is the
    offset [t] was read with: [t] is a time the local clock shows. *)
Definition shownLocally (tz : TimeZone) (t : Z) : Prop :=
  offsetAtUTC tz (UTC tz t) = offsetAtLocal tz t.

End SpecMore.

(** ** Facts about strings *)
Module JSStringFacts.
Import JSString.

Lemma startsWith_spec s p :
  startsWith s p = true <-> exists post, s = p +:+ post.
Proof.
  revert s. induction p as [|a p IH]; intros s; simpl.
  - split; [intros _; exists s; reflexivity | reflexivity].
  - destruct s as [|b s].
    + split; [discriminate | intros [post H]; discriminate].
    + rewrite andb_true_iff, IH. split.
      * intros [Hab [post ->]]. apply Ascii.eqb_eq in Hab. subst b.
        exists post. reflexivity.
      * intros [post H]. injection H as -> ->. split.
        -- apply Ascii.eqb_refl.
        -- exists post. reflexivity.
Qed.

Lemma includes_spec s kw :
  includes s kw = true <-> substring_of kw s.
Proof.
  unfold substring_of. induction s as [|c s IH].
  - simpl. rewrite orb_false_r, startsWith_spec. split.
    + intros [post H]. exists "", post. exact H.
    + intros [pre [post H]]. destruct pre; [exists post; exact H|discriminate].
  - cbn [includes]. rewrite orb_true_iff, IH, startsWith_spec. split.
    + intros [[post H] | [pre [post H]]].
      * exists "", post. exact H.
      * exists (String c pre), post. simpl. rewrite H. reflexivity.
    + intros [pre [post H]]. destruct pre as [|d pre].
      * left. exists post. exact H.
      * right. simpl in H. injection H as _ H. exists pre, post. exact H.
Qed.

Lemma toLowerCase_app s t :
  toLowerCase (s +:+ t) = toLowerCase s +:+ toLowerCase t.
Proof. induction s as [|c s IH]; simpl; [reflexivity | now rewrite IH]. Qed.

(** A split of the lower-cased string comes from a split of the string. *)
Lemma toLowerCase_split s x y :
  toLowerCase s = x +:+ y ->
  exists a b, s = a +:+ b /\ toLowerCase a = x /\ toLowerCase b = y.
Proof.
  revert s. induction x as [|c x IH]; intros s H.
  - exists "", s. repeat split. exact H.
  - destruct s as [|d s]; [discriminate|].
    simpl in H. injection H as Hc H.
    destruct (IH s H) as [a [b [-> [Ha Hb]]]].
    exists (String d a), b. simpl. rewrite Ha, Hc. repeat split. exact Hb.
Qed.

(** Searching the lower-cased text for the lower-cased keyword is the
    case-insensitive substring test. *)
Lemma includes_lower_spec text kw :
  includes (toLowerCase text) (toLowerCase kw) = true <->
  ci_substring_of kw text.
Proof.
  rewrite includes_spec. unfold substring_of, ci_substring_of. split.
  - intros [x [y H]].
    destruct (toLowerCase_split _ _ _ H) as [pre [r [-> [Hpre Hr]]]].
    destruct (toLowerCase_split _ _ _ Hr) as [u [post [-> [Hu Hpost]]]].
    exists pre, u, post. split; [reflexivity | exact Hu].
  - intros [pre [u [post [-> Hu]]]].
    exists (toLowerCase pre), (toLowerCase post).
    now rewrite !toLowerCase_app, Hu.
Qed.

End JSStringFacts.

(** ** Priority detection *)
Module PriorityFacts.
Import JSString JSStringFacts Rules Engine Spec.

Lemma scanKeywords_true lowerText keywords :
  scanKeywords lowerText keywords = true <->
  exists kw, In kw keywords /\ includes lowerText (toLowerCase kw) = true.
Proof.
  induction keywords as [|k rest IH]; simpl.
  - split; [discriminate | intros [kw [[] _]]].
  - destruct (includes lowerText (toLowerCase k)) eqn:Hk.
    + split; [intros _; exists k; auto | reflexivity].
    + rewrite IH. split.
      * intros [kw [Hin Hkw]]. exists kw. auto.
      * intros [kw [[<- | Hin] Hkw]]; [congruence | exists kw; auto].
Qed.

Lemma scanKeywords_hit text keywords :
  scanKeywords (toLowerCase text) keywords = true <-> tier_hit keywords text.
Proof.
  rewrite scanKeywords_true. unfold tier_hit.
  split; intros [kw [Hin H]]; exists kw; split; auto;
    now apply includes_lower_spec.
Qed.

Lemma scanKeywords_miss text keywords :
  scanKeywords (toLowerCase text) keywords = false <-> ~ tier_hit keywords text.
Proof.
  rewrite <- scanKeywords_hit.
  destruct (scanKeywords (toLowerCase text) keywords); split; intros H;
    try reflexivity; try discriminate; [exfalso; now apply H].
Qed.

Section Tiers.
Context {K : Type}.
Implicit Types (entries : list (K * list string)) (p : K).

Lemma scanTiers_Some text entries p :
  scanTiers (toLowerCase text) entries = Some p <-> first_hit entries text p.
Proof.
  unfold first_hit. induction entries as [|[q kws] rest IH]; simpl.
  - split; [discriminate|].
    intros [before [kws [after [H _]]]]. destruct before; discriminate.
  - destruct (scanKeywords (toLowerCase text) kws) eqn:Hq.
    + split.
      * intros [= <-]. exists [], kws, rest.
        repeat split; [now apply scanKeywords_hit | constructor].
      * intros [before [kws' [after [H [Hhit Hbefore]]]]].
        destruct before as [|e before]; simpl in H.
        -- now injection H as -> _ _.
        -- injection H as <- _. inversion Hbefore as [|? ? Hmiss _]; subst.
           exfalso. apply Hmiss. now apply scanKeywords_hit.
    + rewrite IH. split.
      * intros [before [kws' [after [-> [Hhit Hbefore]]]]].
        exists ((q, kws) :: before), kws', after.
        repeat split; auto. constructor; auto.
        now apply scanKeywords_miss.
      * intros [before [kws' [after [H [Hhit Hbefore]]]]].
        destruct before as [|e before]; simpl in H.
        -- injection H as -> -> _. apply scanKeywords_hit in Hhit. congruence.
        -- injection H as _ ->. inversion Hbefore; subst.
           exists before, kws', after. auto.
Qed.

Lemma scanTiers_None text entries :
  scanTiers (toLowerCase text) entries = None <-> no_hit entries text.
Proof.
  unfold no_hit. induction entries as [|[q kws] rest IH]; simpl.
  - split; [constructor | reflexivity].
  - destruct (scanKeywords (toLowerCase text) kws) eqn:Hq.
    + split; [discriminate|]. intros H. inversion H as [|? ? Hmiss _]; subst.
      exfalso. apply Hmiss. now apply scanKeywords_hit.
    + rewrite IH. split.
      * intros H. constructor; auto. now apply scanKeywords_miss.
      * intros H. now inversion H.
Qed.

End Tiers.

(** C1 — [detectPriority] scans the tiers in the declared order critical,
    high, medium, low and answers the first tier one of whose keywords is a
    case-insensitive substring of the text, whatever the tiers after it
    match; when no tier is hit, as for the empty text, it answers
    [medium]. *)
Theorem detectPriority_first_tier_wins :
  map fst PRIORITY_KEYWORDS = [critical; high; medium; low] /\
  (forall text p,
      detectPriority text = p <->
      first_hit PRIORITY_KEYWORDS text p \/
      (no_hit PRIORITY_KEYWORDS text /\ p = medium)) /\
  detectPriority "" = medium.
Proof.
  split; [reflexivity|]. split; [|reflexivity].
  intros text p. unfold detectPriority.
  destruct (scanTiers (toLowerCase text) PRIORITY_KEYWORDS) as [q|] eqn:Hscan.
  - split.
    + intros <-. left. now apply scanTiers_Some.
    + intros [H | [H _]].
      * apply scanTiers_Some in H. congruence.
      * apply scanTiers_None in H. congruence.
  - split.
    + intros <-. right. split; [now apply scanTiers_None | reflexivity].
    + intros [H | [_ ->]]; [|reflexivity].
      apply scanTiers_Some in H. congruence.
Qed.

(** The examples of the specification, and one where a lower tier has more
    keywords in the text than the tier that wins. *)
Example detectPriority_fire :
  detectPriority "there was a fire in the studio" = critical.
Proof. reflexivity. Qed.

Example detectPriority_sundays :
  detectPriority "what time do you open on Sundays" = medium.
Proof. reflexivity. Qed.

Example detectPriority_precedence_not_count :
  detectPriority "Minor idea, no rush: the manager may consider it" = high.
Proof. reflexivity. Qed.

End PriorityFacts.

(** ** Category detection *)
Module CategoryFacts.
Import JSString JSStringFacts Rules Engine Spec.

Lemma countMatches_acc lowerText keywords n :
  countMatches lowerText keywords n =
  n + length (List.filter (fun kw => includes lowerText (toLowerCase kw))
                          keywords).
Proof.
  revert n. induction keywords as [|k rest IH]; intros n; simpl.
  - lia.
  - rewrite IH. destruct (includes lowerText (toLowerCase k)); simpl; lia.
Qed.

Lemma countMatches_count text keywords :
  Forall lowercase keywords ->
  countMatches (toLowerCase text) keywords 0 = keyword_count keywords text.
Proof.
  intros Hlow. rewrite countMatches_acc. unfold keyword_count. simpl.
  f_equal. induction Hlow as [|k rest Hk _ IH]; simpl; [reflexivity|].
  rewrite Hk, IH. reflexivity.
Qed.

(** The count is positive exactly when some keyword is a substring of the
    lower-cased text. *)
Lemma keyword_count_pos keywords text :
  0 < keyword_count keywords text <->
  exists kw, In kw keywords /\ substring_of kw (toLowerCase text).
Proof.
  unfold keyword_count. induction keywords as [|k rest IH]; simpl.
  - split; [lia | intros [kw [[] _]]].
  - destruct (includes (toLowerCase text) k) eqn:Hk; simpl.
    + split; [|lia]. intros _. exists k. split; [now left|].
      now apply includes_spec.
    + rewrite IH. split.
      * intros [kw [Hin H]]. exists kw. auto.
      * intros [kw [[<- | Hin] H]]; [|exists kw; auto].
        apply includes_spec in H. congruence.
Qed.

Section Scan.
Variable text : string.

Let cnt (e : string * list string) : nat := keyword_count (snd e) text.

Lemma scanCategories_all_le entries bestMatch maxMatches :
  lowercase_table entries ->
  Forall (fun e => cnt e <= maxMatches) entries ->
  scanCategories (toLowerCase text) entries bestMatch maxMatches = bestMatch.
Proof.
  intros Hlow Hle. induction Hle as [|[c kws] rest Hc _ IH]; simpl.
  - reflexivity.
  - inversion Hlow as [|? ? Hkws Hrest]; subst.
    rewrite countMatches_count by exact Hkws.
    unfold cnt in Hc. simpl in Hc.
    destruct (Nat.ltb_spec maxMatches (keyword_count kws text)); [lia|].
    now apply IH.
Qed.

Lemma scanCategories_first_greatest before c kws after bestMatch maxMatches :
  lowercase_table (app before ((c, kws) :: after)) ->
  Forall (fun e => cnt e < cnt (c, kws)) before ->
  Forall (fun e => cnt e <= cnt (c, kws)) after ->
  maxMatches < cnt (c, kws) ->
  scanCategories (toLowerCase text) (app before ((c, kws) :: after))
    bestMatch maxMatches = c.
Proof.
  intros Hlow Hbefore Hafter. revert bestMatch maxMatches Hlow.
  induction Hbefore as [|[d kws'] before Hd _ IH];
    intros bestMatch maxMatches Hlow Hmax; simpl in *;
    inversion Hlow as [|? ? Hkws Hrest]; subst;
    rewrite countMatches_count by exact Hkws; unfold cnt in *; simpl in *.
  - destruct (Nat.ltb_spec maxMatches (keyword_count kws text)); [|lia].
    now apply scanCategories_all_le.
  - destruct (Nat.ltb_spec maxMatches (keyword_count kws' text));
      now apply IH.
Qed.

Lemma scanCategories_cases entries bestMatch maxMatches :
  lowercase_table entries ->
  (Forall (fun e => cnt e <= maxMatches) entries /\
   scanCategories (toLowerCase text) entries bestMatch maxMatches = bestMatch)
  \/
  (exists before c kws after,
      entries = app before ((c, kws) :: after) /\
      maxMatches < cnt (c, kws) /\
      Forall (fun e => cnt e < cnt (c, kws)) before /\
      Forall (fun e => cnt e <= cnt (c, kws)) after /\
      scanCategories (toLowerCase text) entries bestMatch maxMatches = c).
Proof.
  intros Hlow. revert bestMatch maxMatches.
  induction Hlow as [|[d kws'] rest Hkws Hrest IH];
    intros bestMatch maxMatches.
  - left. split; [constructor | reflexivity].
  - simpl. rewrite countMatches_count by exact Hkws.
    destruct (Nat.ltb_spec maxMatches (keyword_count kws' text)) as [Hlt|Hge].
    + destruct (IH d (keyword_count kws' text))
        as [[Hle Hres] | [before [c [kws [after [-> [Hm [Hb [Ha Hres]]]]]]]]].
      * right. exists [], d, kws', rest.
        split; [reflexivity|]. split; [exact Hlt|].
        split; [constructor|]. split; [exact Hle | exact Hres].
      * right. exists ((d, kws') :: before), c, kws, after.
        split; [reflexivity|]. split; [lia|].
        split; [constructor; [exact Hm | exact Hb]|].
        split; [exact Ha | exact Hres].
    + destruct (IH bestMatch maxMatches)
        as [[Hle Hres] | [before [c [kws [after [-> [Hm [Hb [Ha Hres]]]]]]]]].
      * left. split; [constructor; [exact Hge | exact Hle] | exact Hres].
      * right. exists ((d, kws') :: before), c, kws, after.
        split; [reflexivity|]. split; [exact Hm|].
        split; [constructor; [unfold cnt in *; simpl in *; lia | exact Hb]|].
        split; [exact Ha | exact Hres].
Qed.

End Scan.

Lemma CATEGORY_KEYWORDS_lowercase : lowercase_table CATEGORY_KEYWORDS.
Proof. repeat constructor. Qed.

(** C2 — [detectCategory] counts, for each category in the declared table
    order, the keywords that are substrings of the lower-cased text, and
    answers the category with the greatest count, the first one to reach it
    when several do; when every count is zero, as for the empty text, it
    answers "Customer Service". *)
Theorem detectCategory_first_greatest_count :
  map fst CATEGORY_KEYWORDS =
    [ "Booking & Technology"; "Customer Service"; "Health & Safety";
      "Retail Management"; "Community & Culture"; "Sales & Marketing";
      "Special Programs" ] /\
  (forall text c,
      detectCategory text = c <->
      first_greatest CATEGORY_KEYWORDS text c \/
      (all_zero CATEGORY_KEYWORDS text /\ c = "Customer Service")) /\
  detectCategory "" = "Customer Service".
Proof.
  split; [reflexivity|]. split; [|reflexivity].
  intros text c. unfold detectCategory. split.
  - intros <-.
    destruct (scanCategories_cases text CATEGORY_KEYWORDS "Customer Service" 0
                CATEGORY_KEYWORDS_lowercase)
      as [[Hle Hres] | [before [c [kws [after [He [Hm [Hb [Ha Hres]]]]]]]]].
    + right. split; [|exact Hres].
      unfold all_zero. eapply List.Forall_impl; [|exact Hle].
      simpl. intros e He. lia.
    + left. rewrite Hres. exists before, kws, after. auto.
  - intros [[before [kws [after [He [Hm [Hb Ha]]]]]] | [Hz ->]].
    + rewrite He. apply scanCategories_first_greatest; auto.
      rewrite <- He. exact CATEGORY_KEYWORDS_lowercase.
    + apply scanCategories_all_le; [exact CATEGORY_KEYWORDS_lowercase|].
      eapply List.Forall_impl; [|exact Hz]. simpl. intros e He. lia.
Qed.

(** A later category with the same count does not replace an earlier one;
    one with a greater count does. *)
Example detectCategory_tie_first_wins :
  detectCategory "The app is fine but the staff is not" = "Booking & Technology".
Proof. reflexivity. Qed.

Example detectCategory_greater_count_wins :
  detectCategory "The app is fine but the STAFF at the front desk is not"
  = "Customer Service".
Proof. reflexivity. Qed.

End CategoryFacts.

(** ** Class details *)
Module ClassDetailsFacts.
Import JSString JSStringFacts Rules Engine Spec PriorityFacts.

Lemma MEMBER_EXPERIENCE_KEYWORDS_lowercase :
  Forall lowercase MEMBER_EXPERIENCE_KEYWORDS.
Proof. repeat constructor. Qed.

Lemma scanKeywords_lowercase lowerText keywords :
  Forall lowercase keywords ->
  scanKeywords lowerText keywords = true <->
  exists kw, In kw keywords /\ substring_of kw lowerText.
Proof.
  intros Hlow. rewrite scanKeywords_true.
  split; intros [kw [Hin H]]; exists kw; split; auto;
    pose proof (proj1 (List.Forall_forall _ _) Hlow kw Hin) as Hkw;
    unfold lowercase in Hkw.
  - rewrite Hkw in H. now apply includes_spec.
  - rewrite Hkw. now apply includes_spec.
Qed.

(** C5 — [requiresClassDetails] answers [true] whenever the priority is
    "critical"; for another priority it answers [true] exactly when the
    category is "Customer Service" or "Health & Safety" and some keyword of
    the member-experience list is a substring of the lower-cased text; in
    every other case it answers [false]. *)
Theorem requiresClassDetails_cases text priority category :
  let member_experience :=
    (category = "Customer Service" \/ category = "Health & Safety") /\
    exists kw, In kw MEMBER_EXPERIENCE_KEYWORDS /\
               substring_of kw (toLowerCase text) in
  requiresClassDetails text "critical" category = true /\
  (requiresClassDetails text priority category = true <->
   priority = "critical" \/ member_experience) /\
  (requiresClassDetails text priority category = false <->
   priority <> "critical" /\ ~ member_experience).
Proof.
  intros member_experience.
  assert (Hiff : requiresClassDetails text priority category = true <->
                 priority = "critical" \/ member_experience).
  { unfold requiresClassDetails, member_experience.
    destruct (String.eqb_spec priority "critical") as [Hp|Hp].
    - split; auto.
    - destruct (String.eqb_spec category "Customer Service") as [Hc|Hc];
        [|destruct (String.eqb_spec category "Health & Safety") as [Hh|Hh]];
        cbn [orb].
      + rewrite scanKeywords_lowercase
          by exact MEMBER_EXPERIENCE_KEYWORDS_lowercase.
        split; [auto | intros [? | [_ ?]]; [contradiction | assumption]].
      + rewrite scanKeywords_lowercase
          by exact MEMBER_EXPERIENCE_KEYWORDS_lowercase.
        split; [auto | intros [? | [_ ?]]; [contradiction | assumption]].
      + split; [discriminate|].
        intros [? | [[? | ?] _]]; contradiction. }
  split; [reflexivity|]. split; [exact Hiff|].
  destruct (requiresClassDetails text priority category).
  - split; [discriminate|]. intros [Hp Hm].
    destruct (proj1 Hiff eq_refl); contradiction.
  - split; [|reflexivity]. intros _.
    split; intros H; [assert (false = true) by (apply Hiff; auto)
                     |assert (false = true) by (apply Hiff; auto)];
      discriminate.
Qed.

Example requiresClassDetails_class_text :
  requiresClassDetails "The CLASS was too loud" "low" "Customer Service" = true.
Proof. reflexivity. Qed.

Example requiresClassDetails_other_category :
  requiresClassDetails "The class was too loud" "high" "Retail Management"
  = false.
Proof. reflexivity. Qed.

End ClassDetailsFacts.

(** ** Escalation rules and department routing *)
Module LookupFacts.
Import JSString JSObject Rules Engine Spec.

Section Reads.
Context {A : Type}.
Implicit Types (o : list (string * A)) (key : string).

(** An own property is found under its exact name only. *)
Lemma getOwn_Some o key a :
  getOwn o key = Some a -> In (key, a) o.
Proof.
  induction o as [|[k b] rest IH]; simpl; [discriminate|].
  destruct (String.eqb_spec key k) as [->|Hne].
  - intros [= ->]. now left.
  - intros H. right. now apply IH.
Qed.

Lemma getOwn_None o key :
  getOwn o key = None <-> ~ In key (map fst o).
Proof.
  induction o as [|[k b] rest IH]; simpl.
  - split; [intros _ [] | reflexivity].
  - destruct (String.eqb_spec key k) as [->|Hne].
    + split; [discriminate | intros H; exfalso; apply H; now left].
    + rewrite IH. split.
      * intros H [Hk | Hin]; [now apply Hne | now apply H].
      * intros H Hin. apply H. now right.
Qed.

Lemma get_own o key a : getOwn o key = Some a -> get o key = Entry a.
Proof. unfold get. now intros ->. Qed.

Lemma get_absent o key :
  getOwn o key = None -> inheritedName key = false -> get o key = Undefined.
Proof. unfold get. now intros -> ->. Qed.

Lemma get_inherited o key :
  getOwn o key = None -> inheritedName key = true -> get o key = Inherited key.
Proof. unfold get. now intros -> ->. Qed.

End Reads.

(** For a name that [Object.prototype] does not define, the escalation
    lookup is the exact lookup in the table, with [null] for a miss. *)
Lemma getEscalationRule_plain_name subcategory :
  inheritedName subcategory = false ->
  getEscalationRule subcategory =
  match getOwn ESCALATION_RULES subcategory with
  | Some rule => Entry rule
  | None => Null
  end.
Proof.
  intros Hname. unfold getEscalationRule, get. rewrite Hname.
  now destruct (getOwn ESCALATION_RULES subcategory).
Qed.

Example getEscalationRule_Theft :
  getEscalationRule "Theft" =
  Entry {| escalateTo := "Security"; priority := "critical";
           immediate := true; notifyLevel := "management" |}.
Proof. reflexivity. Qed.

Example getEscalationRule_case_sensitive :
  getEscalationRule "theft" = Null.
Proof. reflexivity. Qed.

Example getEscalationRule_unknown :
  getEscalationRule "Not A Real Subcategory" = Null.
Proof. reflexivity. Qed.

(** C7 — at the key "constructor", which is no key of the escalation table,
    [getEscalationRule] does not answer the absent result [null]: the read
    finds the member that the table inherits from [Object.prototype], which
    is truthy, and returns it. *)
Theorem getEscalationRule_constructor :
  getOwn ESCALATION_RULES "constructor" = None /\
  getEscalationRule "constructor" = Inherited "constructor" /\
  getEscalationRule "constructor" <> Null.
Proof. split; [reflexivity | split; [reflexivity | discriminate]]. Qed.

(** For a name that [Object.prototype] does not define, the routing lookup
    is the exact lookup in the table, with the entry of "Miscellaneous" for
    a miss. *)
Lemma getDepartmentRouting_plain_name category :
  inheritedName category = false ->
  getDepartmentRouting category =
  match getOwn DEPARTMENT_ROUTING category with
  | Some routing => Entry routing
  | None => getDepartmentRouting "Miscellaneous"
  end.
Proof.
  intros Hname. unfold getDepartmentRouting at 1. unfold get at 1.
  rewrite Hname. now destruct (getOwn DEPARTMENT_ROUTING category).
Qed.

Example getDepartmentRouting_Miscellaneous :
  getDepartmentRouting "Miscellaneous" =
  Entry {| primary := "Operations"; secondary := "Client Success";
           escalationPath := ["Operations"; "Client Success"; "Management"] |}.
Proof. reflexivity. Qed.

Example getDepartmentRouting_nonexistent :
  getDepartmentRouting "NonexistentCategory" =
  getDepartmentRouting "Miscellaneous".
Proof. reflexivity. Qed.

(** C6 — at the category "constructor", which is no key of the routing
    table, [getDepartmentRouting] does not answer the entry of
    "Miscellaneous": the read finds the member that the table inherits from
    [Object.prototype], which is truthy, and the fallback is never reached. *)
Theorem getDepartmentRouting_constructor :
  getOwn DEPARTMENT_ROUTING "constructor" = None /\
  getDepartmentRouting "constructor" = Inherited "constructor" /\
  getDepartmentRouting "constructor" <> getDepartmentRouting "Miscellaneous".
Proof. split; [reflexivity | split; [reflexivity | discriminate]]. Qed.

(** C8 — the keys of the SLA table are critical, high, medium and low, and
    the priority of every escalation rule is one of them. *)
Theorem ESCALATION_RULES_priorities_valid :
  map fst SLA_RULES = map PriorityLevel_key [critical; high; medium; low] /\
  Forall (fun e => In (priority (snd e)) (map fst SLA_RULES)) ESCALATION_RULES.
Proof.
  split; [reflexivity|].
  repeat (apply List.Forall_cons; [simpl; auto 6|]). apply List.Forall_nil.
Qed.

Lemma scanCategories_range lowerText entries bestMatch maxMatches :
  scanCategories lowerText entries bestMatch maxMatches = bestMatch \/
  In (scanCategories lowerText entries bestMatch maxMatches) (map fst entries).
Proof.
  revert bestMatch maxMatches.
  induction entries as [|[c kws] rest IH]; intros bestMatch maxMatches; simpl.
  - now left.
  - destruct (maxMatches <? countMatches lowerText kws 0)%nat.
    + destruct (IH c (countMatches lowerText kws 0)) as [-> | Hin]; auto.
    + destruct (IH bestMatch maxMatches) as [-> | Hin]; auto.
Qed.

(** C9 — the category [detectCategory] answers is one of the seven of the
    keyword table, each of which is a key of the routing table: the routing
    of a detected category is the table's own entry for it, found by the
    exact read, and not the fallback. *)
Theorem detectCategory_routed_exactly text :
  In (detectCategory text) (map fst CATEGORY_KEYWORDS) /\
  exists routing,
    getOwn DEPARTMENT_ROUTING (detectCategory text) = Some routing /\
    get DEPARTMENT_ROUTING (detectCategory text) = Entry routing /\
    getDepartmentRouting (detectCategory text) = Entry routing.
Proof.
  assert (Hin : In (detectCategory text) (map fst CATEGORY_KEYWORDS)).
  { unfold detectCategory.
    destruct (scanCategories_range (toLowerCase text) CATEGORY_KEYWORDS
                "Customer Service" 0) as [-> | H]; [|exact H].
    simpl. auto. }
  split; [exact Hin|].
  simpl in Hin.
  repeat (destruct Hin as [<- | Hin];
          [eexists; repeat split; reflexivity|]).
  destruct Hin.
Qed.

End LookupFacts.

(** ** Deadlines *)
Module SLAFacts.
Import JSObject Rules JSDate SLA Zones Spec.
Local Open Scope Z_scope.

(** Replacing the hour field by the hour plus [n] moves the time by [n]
    hours. *)
Lemma MakeDate_add_hours t n :
  MakeDate (Day t)
    (MakeTime (HourFromTime t + n) (MinFromTime t) (SecFromTime t)
              (msFromTime t))
  = t + n * msPerHour.
Proof.
  unfold MakeDate, MakeTime, Day, HourFromTime, MinFromTime, SecFromTime,
    msFromTime, msPerDay, msPerHour, msPerMinute, msPerSecond.
  Z.div_mod_to_equations. lia.
Qed.

Lemma slaOf_run p h :
  exists sla,
    slaOf p h = Some (sla, h) /\
    resolutionHours sla = resolutionHoursOf p /\
    escalationHours sla = escalationHoursOf p.
Proof. destruct p; eexists; repeat split. Qed.

Lemma lookup_alloc (h : heap) (tv : number) :
  (app h [tv]) !! length h = Some tv.
Proof. now apply list_lookup_middle. Qed.

Lemma lookup_older (h : heap) (d : loc) (tv v : number) :
  h !! d = Some v -> (app h [tv]) !! d = Some v.
Proof. apply lookup_app_l_Some. Qed.

Lemma insert_alloc (h : heap) (tv u : number) :
  <[length h := u]> (app h [tv]) = app h [u].
Proof.
  rewrite insert_app_r_alt by lia. now rewrite Nat.sub_diag.
Qed.

(** Unfolding of the operations on the store. *)
Ltac unfold_store :=
  unfold newDateFrom, newDate, getTime, getHours, setHours, bind, ret, alloc,
    thisTimeValue, setTimeValue.

(** What a call with an explicit [createdAt] does to the store: one object
    is allocated at the end of it, holding the deadline. *)
Lemma calculateSLADeadline_run host p h createdAt tv :
  h !! createdAt = Some tv ->
  calculateSLADeadline host p (Some createdAt) h =
  Some (length h, app h [deadlineValue (zone host) p tv]).
Proof.
  intros Hc. destruct (slaOf_run p h) as [sla [Hsla [Hres _]]].
  unfold calculateSLADeadline, bind, ret. rewrite Hsla.
  unfold_store. rewrite Hc, !lookup_alloc. destruct tv as [|t0]; simpl.
  - reflexivity.
  - rewrite lookup_alloc, insert_alloc, MakeDate_add_hours, Hres.
    reflexivity.
Qed.

Lemma isSLABreached_run host h slaDueAt tv :
  h !! slaDueAt = Some tv ->
  isSLABreached host slaDueAt h =
  Some (gt (Num (now host)) tv, app h [Num (now host)]).
Proof.
  intros Hd. unfold isSLABreached. unfold_store.
  rewrite lookup_alloc. cbv beta iota.
  now rewrite (lookup_older _ _ _ _ Hd).
Qed.

Lemma isNearingSLA_run host h slaDueAt p tv :
  h !! slaDueAt = Some tv ->
  isNearingSLA host slaDueAt p h =
  Some (gt (sub tv (Num (now host))) (Num 0) &&
        le (sub tv (Num (now host))) (Num (escalationHoursOf p * msPerHour)),
        app h [Num (now host)]).
Proof.
  intros Hd. unfold isNearingSLA. unfold_store.
  destruct (slaOf_run p (app h [Num (now host)])) as [sla [Hsla [_ Hesc]]].
  rewrite Hsla. cbv beta iota.
  rewrite (lookup_older _ _ _ _ Hd), lookup_alloc, Hesc. unfold msPerHour.
  replace (escalationHoursOf p * 60 * 60 * 1000)
    with (escalationHoursOf p * 3600000) by lia.
  reflexivity.
Qed.

Lemma resolutionHoursOf_pos p : 0 < resolutionHoursOf p.
Proof. destruct p; reflexivity. Qed.

Lemma TimeClip_inRange t : inRange t -> TimeClip t = Num t.
Proof.
  unfold inRange, TimeClip. intros H.
  destruct (Z.leb_spec (Z.abs t) maxTime); [reflexivity | lia].
Qed.

(** With a steady offset the calendar hours are elapsed hours. *)
Lemma deadlineValue_steady tz p t0 :
  steadyOffset tz t0 (resolutionHoursOf p) ->
  inRange (t0 + resolutionHoursOf p * msPerHour) ->
  deadlineValue tz p (Num t0) = Num (t0 + resolutionHoursOf p * msPerHour).
Proof.
  unfold steadyOffset, deadlineValue, UTC. intros -> Hr.
  unfold LocalTime.
  replace (t0 + offsetAtUTC tz t0 + resolutionHoursOf p * msPerHour
           - offsetAtUTC tz t0)
    with (t0 + resolutionHoursOf p * msPerHour) by lia.
  now apply TimeClip_inRange.
Qed.

Lemma utc_shifts p : shiftsShorterThan utc (resolutionHoursOf p).
Proof.
  intros t l. simpl. pose proof (resolutionHoursOf_pos p).
  unfold msPerHour. lia.
Qed.




(** With a steady offset the calendar sum is the sum of the elapsed time. *)
Lemma calendarAdd_steady tz t0 hours :
  steadyOffset tz t0 hours -> calendarAdd tz t0 hours = t0 + hours * msPerHour.
Proof.
  unfold steadyOffset, calendarAdd, UTC. intros ->. unfold LocalTime. lia.
Qed.

(** In New York, a critical ticket created at 00:30 EDT on the night the
    clocks go back is due at 02:30 EST, two hours later on the clock of the
    wall and three hours later in elapsed time. *)
Example newYork_fall_back :
  let t0 := 1730608200000 in
  calendarAdd newYork t0 2 = t0 + 3 * msPerHour /\
  calculateSLADeadline {| now := t0; zone := newYork |} critical (Some 0%nat)
    [Num t0]
  = Some (1%nat, [Num t0; Num (t0 + 3 * msPerHour)]).
Proof. split; reflexivity. Qed.

(** At Casey station, a critical ticket created at 00:30 local time just
    after the clocks went back three hours is due at 02:30 of the first
    pass of the repeated hours, one hour before its creation: it is
    breached as soon as it is created. *)
Example casey_set_back :
  let t0 := 1583598600000 in
  calendarAdd casey t0 2 = t0 - 1 * msPerHour /\
  calculateSLADeadline {| now := t0; zone := casey |} critical (Some 0%nat)
    [Num t0]
  = Some (1%nat, [Num t0; Num (t0 - 1 * msPerHour)]) /\
  isSLABreached {| now := t0; zone := casey |} 1%nat
    [Num t0; Num (t0 - 1 * msPerHour)]
  = Some (true, [Num t0; Num (t0 - 1 * msPerHour); Num t0]).
Proof. repeat split. Qed.


(** C4 — for a due time [d] and the clock at [now], [isNearingSLA] answers
    [true] exactly when the remaining time [d - now] is strictly positive
    and at most the escalation-warning window of the priority; for [high],
    whose window is four hours, it answers [true] at exactly four hours,
    [false] at four hours and one second, and, for every priority, [false]
    when nothing remains. *)
Theorem isNearingSLA_window host h slaDueAt d :
  h !! slaDueAt = Some (Num d) ->
  let remaining := d - now host in
  (forall p, exists b h',
      isNearingSLA host slaDueAt p h = Some (b, h') /\
      (b = true <->
       0 < remaining /\ remaining <= escalationHoursOf p * msPerHour)) /\
  escalationHoursOf high = 4 /\
  (remaining = 4 * msPerHour ->
   exists h', isNearingSLA host slaDueAt high h = Some (true, h')) /\
  (remaining = 4 * msPerHour + msPerSecond ->
   exists h', isNearingSLA host slaDueAt high h = Some (false, h')) /\
  (remaining <= 0 ->
   forall p, exists h', isNearingSLA host slaDueAt p h = Some (false, h')).
Proof.
  intros Hd remaining.
  assert (Hrun : forall p,
             isNearingSLA host slaDueAt p h =
             Some ((0 <? remaining) &&
                   (remaining <=? escalationHoursOf p * msPerHour),
                   app h [Num (now host)])).
  { intros p. now rewrite (isNearingSLA_run _ _ _ _ _ Hd). }
  split; [|split; [reflexivity | split; [|split]]].
  - intros p. eexists. eexists. split; [apply Hrun|].
    rewrite andb_true_iff, Z.ltb_lt, Z.leb_le. reflexivity.
  - intros Hrem. eexists. rewrite Hrun, Hrem. reflexivity.
  - intros Hrem. eexists. rewrite Hrun, Hrem. reflexivity.
  - intros Hrem p. eexists. rewrite Hrun.
    destruct (Z.ltb_spec 0 remaining); [lia | reflexivity].
Qed.

Lemma isNearingSLA_window_witness :
  exists h',
    isNearingSLA {| now := 1730608200000; zone := utc |} 0%nat high
      [Num 1730622600000] = Some (true, h').
Proof.
  destruct (isNearingSLA_window {| now := 1730608200000; zone := utc |}
              [Num 1730622600000] 0%nat 1730622600000 eq_refl)
    as [_ [_ [H _]]].
  apply H. reflexivity.
Defined.

(** An invalid due date is never near. *)
Lemma isNearingSLA_invalid host h slaDueAt p :
  h !! slaDueAt = Some NaN ->
  exists h', isNearingSLA host slaDueAt p h = Some (false, h').
Proof.
  intros Hd. eexists. now rewrite (isNearingSLA_run _ _ _ _ _ Hd).
Qed.

(** C10 — [calculateSLADeadline] leaves the object [createdAt] as it was:
    the object it returns is a new one, which the store did not hold before
    the call, and [createdAt], like every other object of the store, holds
    after the call the time value it held before. *)
Theorem calculateSLADeadline_frame host p h createdAt tv :
  h !! createdAt = Some tv ->
  exists deadline h',
    calculateSLADeadline host p (Some createdAt) h = Some (deadline, h') /\
    deadline <> createdAt /\
    h !! deadline = None /\
    is_Some (h' !! deadline) /\
    h' !! createdAt = Some tv /\
    (forall d, d <> deadline -> h' !! d = h !! d).
Proof.
  intros Hc. pose proof (lookup_lt_Some _ _ _ Hc) as Hlt.
  exists (length h), (app h [deadlineValue (zone host) p tv]).
  split; [now apply calculateSLADeadline_run|].
  split; [unfold loc in *; lia|].
  split; [now apply lookup_ge_None_2|].
  split; [eexists; apply lookup_alloc|].
  split; [now apply lookup_older|].
  intros d Hne. destruct (Nat.lt_ge_cases d (length h)) as [Hd|Hd].
  - now apply lookup_app_l.
  - assert (H1 : h !! d = None) by now apply lookup_ge_None_2.
    assert (H2 : (app h [deadlineValue (zone host) p tv]) !! d = None).
    { apply lookup_ge_None_2. rewrite length_app. simpl.
      unfold loc in *. lia. }
    etransitivity; [exact H2 | symmetry; exact H1].
Qed.

Lemma calculateSLADeadline_frame_witness :
  exists deadline h',
    calculateSLADeadline {| now := 0; zone := newYork |} critical (Some 0%nat)
      [Num 1730608200000] = Some (deadline, h') /\
    h' !! 0%nat = Some (Num 1730608200000).
Proof.
  destruct (calculateSLADeadline_frame {| now := 0; zone := newYork |}
              critical [Num 1730608200000] 0%nat (Num 1730608200000) eq_refl)
    as [deadline [h' [Hrun [_ [_ [_ [Hkept _]]]]]]].
  exists deadline, h'. split; [exact Hrun | exact Hkept].
Defined.

End SLAFacts.

(** ** More on detection *)
Module DetectionMore.
Import JSString JSStringFacts JSObject Rules Engine Spec SpecMore.
Import PriorityFacts CategoryFacts ClassDetailsFacts.

Lemma append_assoc (a b c : string) : (a +:+ b) +:+ c = a +:+ b +:+ c.
Proof.
  induction a as [|x a IH]; [reflexivity|].
  change (String x ((a +:+ b) +:+ c) = String x (a +:+ b +:+ c)).
  now rewrite IH.
Qed.

Lemma ci_substring_extend kw text a b :
  ci_substring_of kw text -> ci_substring_of kw (a +:+ text +:+ b).
Proof.
  intros [pre [u [post [-> Hu]]]].
  exists (a +:+ pre), u, (post +:+ b). split; [|exact Hu].
  now rewrite !append_assoc.
Qed.

Lemma scanKeywords_extend text a b keywords :
  scanKeywords (toLowerCase text) keywords = true ->
  scanKeywords (toLowerCase (a +:+ text +:+ b)) keywords = true.
Proof.
  rewrite !scanKeywords_hit. intros [kw [Hin H]].
  exists kw. split; [exact Hin | now apply ci_substring_extend].
Qed.

(** Text around a text that hits some tier never moves the priority to a
    tier scanned later: what is detected for the longer text is the same
    tier or one scanned before it. *)
Theorem detectPriority_extension a text b :
  ~ no_hit PRIORITY_KEYWORDS text ->
  precedence (detectPriority (a +:+ text +:+ b))
  <= precedence (detectPriority text).
Proof.
  intros Hhit.
  assert (Hsome : scanTiers (toLowerCase text) PRIORITY_KEYWORDS <> None).
  { intros Hnone. apply Hhit. now apply scanTiers_None. }
  revert Hsome. unfold detectPriority, PRIORITY_KEYWORDS. cbn [scanTiers].
  repeat match goal with
  | |- context [scanKeywords (toLowerCase text) ?k] =>
      let H := fresh "H" in
      pose proof (scanKeywords_extend text a b k) as H;
      destruct (scanKeywords (toLowerCase text) k);
      [rewrite (H eq_refl) | clear H]
  end;
  repeat match goal with
  | |- context [scanKeywords (toLowerCase (a +:+ text +:+ b)) ?k] =>
      destruct (scanKeywords (toLowerCase (a +:+ text +:+ b)) k)
  end;
  simpl; intros Hsome; try lia; now elim Hsome.
Qed.

Lemma detectPriority_extension_witness :
  precedence (detectPriority ("URGENT: " +:+ "the mat is broken" +:+ "!"))
  <= precedence (detectPriority "the mat is broken").
Proof.
  apply (detectPriority_extension "URGENT: " "the mat is broken" "!").
  intros H. apply scanTiers_None in H. discriminate H.
Defined.

Lemma scanCategories_same_counts t1 t2 entries bestMatch maxMatches :
  Forall (fun e => countMatches t1 (snd e) 0 = countMatches t2 (snd e) 0)
         entries ->
  scanCategories t1 entries bestMatch maxMatches
  = scanCategories t2 entries bestMatch maxMatches.
Proof.
  intros H. revert bestMatch maxMatches.
  induction H as [|[c kws] rest Hc _ IH]; intros bestMatch maxMatches; simpl.
  - reflexivity.
  - simpl in Hc. rewrite Hc.
    destruct (maxMatches <? countMatches t2 kws 0)%nat; apply IH.
Qed.

(** The category depends on the text through the keyword counts only: two
    texts with the same count in every category get the same category. *)
Theorem detectCategory_counts_only t1 t2 :
  Forall (fun e => keyword_count (snd e) t1 = keyword_count (snd e) t2)
         CATEGORY_KEYWORDS ->
  detectCategory t1 = detectCategory t2.
Proof.
  intros H. unfold detectCategory. apply scanCategories_same_counts.
  pose proof CATEGORY_KEYWORDS_lowercase as Hlow. unfold lowercase_table in Hlow.
  induction H as [|e rest He _ IH].
  - constructor.
  - inversion Hlow as [|? ? Hkws Hrest]; subst.
    constructor; [|apply IH; exact Hrest].
    rewrite !countMatches_count by exact Hkws. exact He.
Qed.

Lemma detectCategory_counts_only_witness :
  detectCategory "my login fails" = detectCategory "Login: it just fails, sorry".
Proof.
  apply (detectCategory_counts_only "my login fails"
           "Login: it just fails, sorry").
  repeat (apply List.Forall_cons; [vm_compute; reflexivity|]).
  apply List.Forall_nil.
Defined.

Lemma PriorityLevel_key_critical p :
  PriorityLevel_key p = "critical" <-> p = critical.
Proof. destruct p; split; intros H; try reflexivity; discriminate H. Qed.

Lemma detectPriority_critical text :
  detectPriority text = critical <-> tier_hit (tierKeywords critical) text.
Proof.
  rewrite <- scanKeywords_hit.
  replace (tierKeywords critical)
    with (snd (List.hd (critical, []) PRIORITY_KEYWORDS)) by reflexivity.
  unfold detectPriority, PRIORITY_KEYWORDS. cbn [scanTiers List.hd snd].
  match goal with
  | |- context [scanKeywords (toLowerCase text) ?k] =>
      destruct (scanKeywords (toLowerCase text) k)
  end; [tauto|].
  repeat match goal with
  | |- context [if scanKeywords ?t ?k then _ else _] =>
      destruct (scanKeywords t k)
  end; split; intros H; discriminate H.
Qed.

(** The answer about class details for the priority that [detectPriority]
    finds, as the assistant asks for it: [true] exactly when the text has a
    keyword of the critical tier, or the category is "Customer Service" or
    "Health & Safety" and the lower-cased text has a member-experience
    keyword. *)
Theorem requiresClassDetails_of_detected text category :
  requiresClassDetails text (PriorityLevel_key (detectPriority text)) category
  = true <->
  tier_hit (tierKeywords critical) text \/
  ((category = "Customer Service" \/ category = "Health & Safety") /\
   exists kw, In kw MEMBER_EXPERIENCE_KEYWORDS /\
              substring_of kw (toLowerCase text)).
Proof.
  rewrite <- detectPriority_critical, <- PriorityLevel_key_critical.
  unfold requiresClassDetails.
  destruct (String.eqb_spec (PriorityLevel_key (detectPriority text))
              "critical") as [Hp|Hp].
  - split; auto.
  - destruct (String.eqb_spec category "Customer Service") as [Hc|Hc];
      [|destruct (String.eqb_spec category "Health & Safety") as [Hh|Hh]];
      cbn [orb].
    + rewrite scanKeywords_lowercase
        by exact MEMBER_EXPERIENCE_KEYWORDS_lowercase.
      split; [auto | intros [? | [_ ?]]; [contradiction | assumption]].
    + rewrite scanKeywords_lowercase
        by exact MEMBER_EXPERIENCE_KEYWORDS_lowercase.
      split; [auto | intros [? | [_ ?]]; [contradiction | assumption]].
    + split; [discriminate|].
      intros [? | [[? | ?] _]]; contradiction.
Qed.

End DetectionMore.

(** ** More on the lookups *)
Module LookupMore.
Import JSString JSObject Rules Engine Spec LookupFacts.

Section Reads.
Context {A : Type}.
Implicit Types (o : list (string * A)) (key : string).

Lemma getOwn_In o key a :
  List.NoDup (map fst o) -> In (key, a) o -> getOwn o key = Some a.
Proof.
  induction o as [|[k b] rest IH]; simpl; [intros _ []|].
  intros Hnd [Heq | Hin]; inversion Hnd as [|? ? Hk Hrest]; subst.
  - injection Heq as -> ->. now rewrite String.eqb_refl.
  - destruct (String.eqb_spec key k) as [->|Hne]; [|now apply IH].
    exfalso. apply Hk. apply (in_map fst) in Hin. exact Hin.
Qed.

Lemma getOwn_iff o key a :
  List.NoDup (map fst o) -> getOwn o key = Some a <-> In (key, a) o.
Proof. intros Hnd. split; [apply getOwn_Some | now apply getOwn_In]. Qed.

Lemma inheritedName_iff key :
  inheritedName key = true <-> In key Object_prototype.
Proof.
  unfold inheritedName. rewrite existsb_exists. split.
  - intros [n [Hin Heq]]. apply String.eqb_eq in Heq. now subst.
  - intros Hin. exists key. split; [exact Hin | apply String.eqb_refl].
Qed.

Lemma inheritedName_false key :
  inheritedName key = false <-> ~ In key Object_prototype.
Proof.
  rewrite <- inheritedName_iff. destruct (inheritedName key); split;
    intros H; try reflexivity; try discriminate; [exfalso; now apply H].
Qed.

(** The three outcomes of a read. *)
Lemma get_cases o key :
  List.NoDup (map fst o) ->
  (exists a, In (key, a) o /\ get o key = Entry a) \/
  (~ In key (map fst o) /\ In key Object_prototype /\
   get o key = Inherited key) \/
  (~ In key (map fst o) /\ ~ In key Object_prototype /\
   get o key = Undefined).
Proof.
  intros Hnd. unfold get. destruct (getOwn o key) as [a|] eqn:Hown.
  - left. exists a. split; [now apply getOwn_Some | reflexivity].
  - apply getOwn_None in Hown. right.
    destruct (inheritedName key) eqn:Hname.
    + left. apply inheritedName_iff in Hname. auto.
    + right. apply inheritedName_false in Hname. auto.
Qed.

(** The same for a read followed by [|| w]. *)
Lemma or_else_get_cases o key (w : value A) :
  List.NoDup (map fst o) ->
  (exists a, In (key, a) o /\ or_else (get o key) w = Entry a) \/
  (~ In key (map fst o) /\ In key Object_prototype /\
   or_else (get o key) w = Inherited key) \/
  (~ In key (map fst o) /\ ~ In key Object_prototype /\
   or_else (get o key) w = w).
Proof.
  intros Hnd. unfold or_else.
  destruct (get_cases o key Hnd)
    as [[a [Hin ->]] | [[Hk [Hp ->]] | [Hk [Hp ->]]]]; cbn [truthy].
  - left. eauto.
  - right. left. auto.
  - right. right. auto.
Qed.

Lemma In_key o key a : In (key, a) o -> In key (map fst o).
Proof. intros Hin. apply (in_map fst) in Hin. exact Hin. Qed.

End Reads.

(** No two elements of a list of written-out strings are equal. *)
Ltac distinct_strings :=
  repeat (apply List.NoDup_cons;
          [let H := fresh "Hin" in
           simpl; intros H;
           repeat (destruct H as [H|H]; [discriminate H|]); exact H|]);
  apply List.NoDup_nil.

Lemma ESCALATION_RULES_keys : List.NoDup (map fst ESCALATION_RULES).
Proof. distinct_strings. Qed.

Lemma DEPARTMENT_ROUTING_keys : List.NoDup (map fst DEPARTMENT_ROUTING).
Proof. distinct_strings. Qed.

(** An entry that a lookup answers is an entry of its table. *)
Lemma getEscalationRule_in_table subcategory rule :
  getEscalationRule subcategory = Entry rule ->
  In (subcategory, rule) ESCALATION_RULES.
Proof.
  unfold getEscalationRule.
  destruct (or_else_get_cases ESCALATION_RULES subcategory Null
              ESCALATION_RULES_keys)
    as [[a [Hin ->]] | [[Hk [Hp ->]] | [Hk [Hp ->]]]];
    [intros [= <-]; exact Hin | discriminate | discriminate].
Qed.

Lemma getDepartmentRouting_in_table category routing :
  getDepartmentRouting category = Entry routing ->
  exists key, In (key, routing) DEPARTMENT_ROUTING.
Proof.
  unfold getDepartmentRouting.
  destruct (or_else_get_cases DEPARTMENT_ROUTING category
              (get DEPARTMENT_ROUTING "Miscellaneous")
              DEPARTMENT_ROUTING_keys)
    as [[a [Hin ->]] | [[Hk [Hp ->]] | [Hk [Hp ->]]]].
  - intros [= <-]. eauto.
  - discriminate.
  - intros H. exists "Miscellaneous". apply getOwn_Some.
    unfold get in H.
    destruct (getOwn DEPARTMENT_ROUTING "Miscellaneous");
      [congruence | destruct (inheritedName _); discriminate].
Qed.

(** [getEscalationRule] is exact: it answers a rule for a key exactly when
    the table holds that rule under that very key, and [null] exactly when
    the key is neither a key of the table nor a name inherited from
    [Object.prototype]; for such an inherited name that is no key it
    answers the inherited member.  It never answers [undefined]. *)
Theorem getEscalationRule_exact subcategory :
  (forall rule,
      getEscalationRule subcategory = Entry rule <->
      In (subcategory, rule) ESCALATION_RULES) /\
  (getEscalationRule subcategory = Null <->
   ~ In subcategory (map fst ESCALATION_RULES) /\
   ~ In subcategory Object_prototype) /\
  (forall name,
      getEscalationRule subcategory = Inherited name <->
      name = subcategory /\ In subcategory Object_prototype /\
      ~ In subcategory (map fst ESCALATION_RULES)) /\
  getEscalationRule subcategory <> Undefined.
Proof.
  unfold getEscalationRule.
  destruct (or_else_get_cases ESCALATION_RULES subcategory Null
              ESCALATION_RULES_keys)
    as [[a [Hin ->]] | [[Hk [Hp ->]] | [Hk [Hp ->]]]].
  - pose proof (In_key _ _ _ Hin) as Hkey.
    split; [|split; [|split]].
    + intros rule. split.
      * intros [= <-]. exact Hin.
      * intros Hin'. f_equal.
        apply (getOwn_In _ _ _ ESCALATION_RULES_keys) in Hin, Hin'.
        congruence.
    + split; [discriminate | tauto].
    + intros name. split; [discriminate | tauto].
    + discriminate.
  - split; [|split; [|split]].
    + intros rule. split; [discriminate|].
      intros Hin. exfalso. apply Hk. now apply In_key in Hin.
    + split; [discriminate | tauto].
    + intros name. split.
      * intros [= <-]. auto.
      * intros [-> _]. reflexivity.
    + discriminate.
  - split; [|split; [|split]].
    + intros rule. split; [discriminate|].
      intros Hin. exfalso. apply Hk. now apply In_key in Hin.
    + split; auto.
    + intros name. split; [discriminate | tauto].
    + discriminate.
Qed.

(** [getDepartmentRouting] is exact up to its fallback: it answers an entry
    exactly when the table holds that entry under the given key, or the key
    is neither a key of the table nor a name inherited from
    [Object.prototype] and the entry is the one of "Miscellaneous"; for such
    an inherited name that is no key it answers the inherited member.  It
    never answers [undefined] or [null]. *)
Theorem getDepartmentRouting_exact category :
  (forall routing,
      getDepartmentRouting category = Entry routing <->
      In (category, routing) DEPARTMENT_ROUTING \/
      (~ In category (map fst DEPARTMENT_ROUTING) /\
       ~ In category Object_prototype /\
       In ("Miscellaneous", routing) DEPARTMENT_ROUTING)) /\
  (forall name,
      getDepartmentRouting category = Inherited name <->
      name = category /\ In category Object_prototype /\
      ~ In category (map fst DEPARTMENT_ROUTING)) /\
  getDepartmentRouting category <> Undefined /\
  getDepartmentRouting category <> Null.
Proof.
  unfold getDepartmentRouting.
  destruct (get DEPARTMENT_ROUTING "Miscellaneous") as [misc| | |] eqn:Hmisc;
    try discriminate Hmisc.
  assert (Hm : forall r, In ("Miscellaneous", r) DEPARTMENT_ROUTING <-> r = misc).
  { intros r. rewrite <- (getOwn_iff _ _ _ DEPARTMENT_ROUTING_keys).
    injection Hmisc as <-. split; [intros [= <-] | intros ->]; reflexivity. }
  destruct (or_else_get_cases DEPARTMENT_ROUTING category (Entry misc)
              DEPARTMENT_ROUTING_keys)
    as [[a [Hin ->]] | [[Hk [Hp ->]] | [Hk [Hp ->]]]].
  - pose proof (In_key _ _ _ Hin) as Hkey.
    split; [|split; [|split]]; try discriminate.
    + intros routing. split.
      * intros [= <-]. now left.
      * intros [Hin' | [Hno _]]; [|contradiction]. f_equal.
        apply (getOwn_In _ _ _ DEPARTMENT_ROUTING_keys) in Hin, Hin'.
        congruence.
    + intros name. split; [discriminate | tauto].
  - split; [|split; [|split]]; try discriminate.
    + intros routing. split; [discriminate|].
      intros [Hin | [_ [Hno _]]]; [|contradiction].
      exfalso. apply Hk. now apply In_key in Hin.
    + intros name. split.
      * intros [= <-]. auto.
      * intros [-> _]. reflexivity.
  - split; [|split; [|split]]; try discriminate.
    + intros routing. split.
      * intros [= <-]. right. split; [exact Hk | split; [exact Hp|]].
        now apply Hm.
      * intros [Hin | [_ [_ Hin]]].
        -- exfalso. apply Hk. now apply In_key in Hin.
        -- apply Hm in Hin. now subst.
    + intros name. split; [discriminate | tauto].
Qed.

End LookupMore.

(** ** More on deadlines *)
Module SLAMore.
Import JSObject Rules JSDate SLA Zones Spec SpecMore SLAFacts.
Local Open Scope Z_scope.

(** [isSLABreached] answers [true] exactly when the clock is strictly past
    the due time: at the due millisecond itself the deadline is not yet
    breached. *)
Theorem isSLABreached_strictly_after host h slaDueAt d :
  h !! slaDueAt = Some (Num d) ->
  exists b h',
    isSLABreached host slaDueAt h = Some (b, h') /\
    (b = true <-> d < now host).
Proof.
  intros Hd. eexists. eexists.
  split; [apply (isSLABreached_run _ _ _ _ Hd)|].
  simpl. apply Z.ltb_lt.
Qed.

Lemma isSLABreached_strictly_after_witness :
  exists b h',
    isSLABreached {| now := 1730608200000; zone := utc |} 0%nat
      [Num 1730608200000] = Some (b, h') /\
    (b = true <-> 1730608200000 < 1730608200000).
Proof.
  apply (isSLABreached_strictly_after {| now := 1730608200000; zone := utc |}
           [Num 1730608200000] 0%nat 1730608200000).
  reflexivity.
Defined.

(** At one reading of the clock a due date is never both near and
    breached, whatever the priority; when the clock shows exactly the due
    time it is neither. *)
Theorem never_near_and_breached host h slaDueAt tv p :
  h !! slaDueAt = Some tv ->
  exists near breached h1 h2,
    isNearingSLA host slaDueAt p h = Some (near, h1) /\
    isSLABreached host slaDueAt h = Some (breached, h2) /\
    near && breached = false /\
    (tv = Num (now host) -> near = false /\ breached = false).
Proof.
  intros Hd. do 4 eexists.
  split; [apply (isNearingSLA_run _ _ _ _ _ Hd)|].
  split; [apply (isSLABreached_run _ _ _ _ Hd)|].
  destruct tv as [|d]; simpl.
  - split; [reflexivity | discriminate].
  - split.
    + destruct (Z.ltb_spec 0 (d - now host));
        destruct (Z.ltb_spec d (now host)); simpl;
        try reflexivity; try lia; apply andb_false_r.
    + intros [= ->]. rewrite Z.sub_diag, !Z.ltb_irrefl. split; reflexivity.
Qed.

Lemma never_near_and_breached_witness :
  exists near breached h1 h2,
    isNearingSLA {| now := 5000; zone := utc |} 0%nat high [Num 5000]
      = Some (near, h1) /\
    isSLABreached {| now := 5000; zone := utc |} 0%nat [Num 5000]
      = Some (breached, h2) /\
    near && breached = false /\
    (Num 5000 = Num 5000 -> near = false /\ breached = false).
Proof.
  apply (never_near_and_breached {| now := 5000; zone := utc |}
           [Num 5000] 0%nat (Num 5000) high).
  reflexivity.
Defined.

Lemma budgets_ordered p :
  0 < escalationHoursOf p < resolutionHoursOf p.
Proof. destruct p; split; reflexivity. Qed.

(** The warning window of every priority is positive and shorter than its
    resolution budget, and both grow from each tier to every less urgent
    one. *)
Theorem budgets_grow_with_precedence p q :
  0 < escalationHoursOf p < resolutionHoursOf p /\
  ((precedence p < precedence q)%nat ->
   resolutionHoursOf p < resolutionHoursOf q /\
   escalationHoursOf p < escalationHoursOf q).
Proof.
  split; [apply budgets_ordered|].
  intros H. split; destruct p, q; simpl in H; try lia; reflexivity.
Qed.

Lemma budgets_grow_with_precedence_witness :
  0 < escalationHoursOf low < resolutionHoursOf low /\
  resolutionHoursOf critical < resolutionHoursOf low /\
  escalationHoursOf critical < escalationHoursOf low.
Proof.
  split.
  - apply (budgets_grow_with_precedence low low).
  - apply (budgets_grow_with_precedence critical low). simpl. lia.
Defined.



Lemma fields_after_hours t n :
  MinFromTime (t + n * msPerHour) = MinFromTime t /\
  SecFromTime (t + n * msPerHour) = SecFromTime t /\
  msFromTime (t + n * msPerHour) = msFromTime t /\
  HourFromTime (t + n * msPerHour) = (HourFromTime t + n) mod 24.
Proof.
  unfold MinFromTime, SecFromTime, msFromTime, HourFromTime,
    msPerMinute, msPerSecond, msPerHour.
  repeat split; Z.div_mod_to_equations; lia.
Qed.

(** The deadline on the wall clock, in any zone: when the local time the
    resolution hours after the local creation time is a time the local
    clock shows, the deadline reads that local time; its minutes, seconds
    and milliseconds are those of the creation and its hour is the hour of
    the creation plus the resolution hours, modulo 24. *)
Theorem deadline_on_the_wall_clock tz p h createdAt t0 clock :
  h !! createdAt = Some (Num t0) ->
  let wall := LocalTime tz t0 + resolutionHoursOf p * msPerHour in
  shownLocally tz wall ->
  inRange (UTC tz wall) ->
  exists deadline h1 d,
    calculateSLADeadline {| now := clock; zone := tz |} p (Some createdAt) h
    = Some (deadline, h1) /\
    h1 !! deadline = Some (Num d) /\
    LocalTime tz d = wall /\
    HourFromTime (LocalTime tz d)
    = (HourFromTime (LocalTime tz t0) + resolutionHoursOf p) mod 24 /\
    MinFromTime (LocalTime tz d) = MinFromTime (LocalTime tz t0) /\
    SecFromTime (LocalTime tz d) = SecFromTime (LocalTime tz t0) /\
    msFromTime (LocalTime tz d) = msFromTime (LocalTime tz t0).
Proof.
  intros Hc wall Hshown Hr.
  exists (length h), (app h [Num (UTC tz wall)]), (UTC tz wall).
  assert (Hlocal : LocalTime tz (UTC tz wall) = wall).
  { unfold shownLocally in Hshown. unfold LocalTime at 1.
    rewrite Hshown. unfold UTC. lia. }
  split; [|split; [apply lookup_alloc | split; [exact Hlocal|]]].
  - rewrite (calculateSLADeadline_run _ _ _ _ _ Hc). simpl.
    fold wall. now rewrite TimeClip_inRange.
  - rewrite Hlocal. unfold wall.
    destruct (fields_after_hours (LocalTime tz t0) (resolutionHoursOf p))
      as [Hmin [Hsec [Hms Hhour]]].
    auto.
Qed.

Lemma deadline_on_the_wall_clock_witness :
  exists deadline h1 d,
    calculateSLADeadline {| now := 0; zone := newYork |} critical (Some 0%nat)
      [Num 1730608200000] = Some (deadline, h1) /\
    h1 !! deadline = Some (Num d) /\
    LocalTime newYork d = LocalTime newYork 1730608200000 + 2 * msPerHour.
Proof.
  destruct (deadline_on_the_wall_clock newYork critical [Num 1730608200000]
              0%nat 1730608200000 0)
    as [deadline [h1 [d [Hrun [Hlook [Hwall _]]]]]].
  - reflexivity.
  - reflexivity.
  - unfold inRange. vm_compute. discriminate.
  - exists deadline, h1, d. split; [exact Hrun | split; [exact Hlook|]].
    exact Hwall.
Defined.

(** A call without [createdAt] reads the clock: it adds two objects to the
    store, the creation time, which holds the reading of the clock, and the
    deadline, and changes no object the store held; where the local offset
    is steady and the sum is within the range of [Date], the deadline is the
    reading of the clock plus the resolution hours. *)
Theorem calculateSLADeadline_default host p h :
  exists created deadline h',
    calculateSLADeadline host p None h = Some (deadline, h') /\
    h !! created = None /\
    h !! deadline = None /\
    created <> deadline /\
    h' !! created = Some (Num (now host)) /\
    is_Some (h' !! deadline) /\
    length h' = (length h + 2)%nat /\
    (forall d v, h !! d = Some v -> h' !! d = Some v) /\
    (steadyOffset (zone host) (now host) (resolutionHoursOf p) ->
     inRange (now host + resolutionHoursOf p * msPerHour) ->
     h' !! deadline
     = Some (Num (now host + resolutionHoursOf p * msPerHour))).
Proof.
  pose (h0 := app h [Num (now host)]).
  assert (Hc : h0 !! length h = Some (Num (now host))) by apply lookup_alloc.
  assert (Hlen : length h0 = (length h + 1)%nat)
    by (unfold h0; rewrite length_app; reflexivity).
  exists (length h), (length h0),
    (app h0 [deadlineValue (zone host) p (Num (now host))]).
  split; [|split; [|split; [|split; [|split; [|split; [|split; [|split]]]]]]].
  - unfold calculateSLADeadline, newDate, alloc. unfold bind at 1.
    fold h0.
    pose proof (calculateSLADeadline_run host p h0 (length h) _ Hc) as Hrun.
    unfold calculateSLADeadline in Hrun. unfold bind at 1 in Hrun.
    unfold ret at 1 in Hrun. exact Hrun.
  - apply lookup_ge_None_2. lia.
  - apply lookup_ge_None_2. lia.
  - lia.
  - apply lookup_older. exact Hc.
  - eexists. apply lookup_alloc.
  - rewrite length_app, Hlen. simpl. lia.
  - intros d v Hd. apply lookup_older. unfold h0. now apply lookup_older.
  - intros Hs Hr. rewrite <- (deadlineValue_steady _ _ _ Hs Hr).
    apply lookup_alloc.
Qed.

Lemma calculateSLADeadline_default_witness :
  exists deadline h',
    calculateSLADeadline {| now := 1730608200000; zone := utc |} low None []
    = Some (deadline, h') /\
    h' !! deadline = Some (Num (1730608200000 + 72 * msPerHour)).
Proof.
  destruct (calculateSLADeadline_default
              {| now := 1730608200000; zone := utc |} low [])
    as [created [deadline [h' [Hrun [_ [_ [_ [_ [_ [_ [_ Hvalue]]]]]]]]]]].
  exists deadline, h'. split; [exact Hrun|].
  apply Hvalue.
  - reflexivity.
  - unfold inRange. vm_compute. discriminate.
Defined.

(** An invalid creation date gives an invalid deadline, which no reading of
    the clock reports as breached or as near. *)
Theorem invalid_date_never_flagged host p h createdAt :
  h !! createdAt = Some NaN ->
  exists deadline h1,
    calculateSLADeadline host p (Some createdAt) h = Some (deadline, h1) /\
    h1 !! deadline = Some NaN /\
    forall host' p',
      (exists h2, isSLABreached host' deadline h1 = Some (false, h2)) /\
      (exists h2, isNearingSLA host' deadline p' h1 = Some (false, h2)).
Proof.
  intros Hc. exists (length h), (app h [NaN]).
  assert (Hlook : (app h [NaN]) !! length h = Some NaN) by apply lookup_alloc.
  split; [|split; [exact Hlook|]].
  - now rewrite (calculateSLADeadline_run _ _ _ _ _ Hc).
  - intros host' p'. split; eexists.
    + now rewrite (isSLABreached_run _ _ _ _ Hlook).
    + now rewrite (isNearingSLA_run _ _ _ _ _ Hlook).
Qed.

Lemma invalid_date_never_flagged_witness :
  exists deadline h1,
    calculateSLADeadline {| now := 0; zone := newYork |} medium (Some 0%nat)
      [NaN] = Some (deadline, h1) /\
    h1 !! deadline = Some NaN.
Proof.
  destruct (invalid_date_never_flagged {| now := 0; zone := newYork |}
              medium [NaN] 0%nat eq_refl)
    as [deadline [h1 [Hrun [Hlook _]]]].
  exists deadline, h1. split; [exact Hrun | exact Hlook].
Defined.

End SLAMore.

(** ** What the tables guarantee to the callers *)
Module TableFacts.
Import JSString JSObject Rules Engine Spec SpecMore LookupFacts LookupMore.

(** Whatever routing [getDepartmentRouting] answers, its escalation path
    begins with its primary department followed by its secondary one, and
    names no department twice. *)
Theorem routing_path_starts_with_primary category routing :
  getDepartmentRouting category = Entry routing ->
  (exists rest,
      escalationPath routing = primary routing :: secondary routing :: rest) /\
  List.NoDup (escalationPath routing).
Proof.
  intros H.
  destruct (getDepartmentRouting_in_table _ _ H) as [k Hin]. simpl in Hin.
  repeat (destruct Hin as [[= <- <-] | Hin];
          [split; [eexists; reflexivity | simpl; distinct_strings]|]).
  destruct Hin.
Qed.

Lemma routing_path_starts_with_primary_witness :
  (exists rest,
      escalationPath
        {| primary := "Operations"; secondary := "Client Success";
           escalationPath := ["Operations"; "Client Success"; "Management"] |}
      = "Operations" :: "Client Success" :: rest) /\
  List.NoDup ["Operations"; "Client Success"; "Management"].
Proof.
  apply (routing_path_starts_with_primary "No such category"). reflexivity.
Defined.

(** Whatever rule [getEscalationRule] answers, a rule that raises the
    priority to critical escalates at once, and its notification level is
    one of all, management and department. *)
Theorem escalation_rules_well_formed subcategory rule :
  getEscalationRule subcategory = Entry rule ->
  (priority rule = "critical" -> immediate rule = true) /\
  In (notifyLevel rule) ["all"; "management"; "department"].
Proof.
  intros H. apply getEscalationRule_in_table in H.
  simpl in H.
  repeat (destruct H as [[= _ <-] | H];
          [split; [intros Hp; first [reflexivity | discriminate Hp]
                  | simpl; auto 4]|]).
  destruct H.
Qed.

Lemma escalation_rules_well_formed_witness :
  (priority (mkEscalation "Security" "critical" true "management") = "critical"
   -> immediate (mkEscalation "Security" "critical" true "management") = true)
  /\ In (notifyLevel (mkEscalation "Security" "critical" true "management"))
        ["all"; "management"; "department"].
Proof.
  apply (escalation_rules_well_formed "Theft"). reflexivity.
Defined.

Ltac clean_keywords :=
  split; [distinct_strings
         | repeat (apply List.Forall_cons;
                   [split; [discriminate | reflexivity]|]);
           apply List.Forall_nil].

(** Every keyword list of the three keyword tables is clean: no keyword is
    counted twice for its category, none is the empty string, which every
    text includes, and lower-casing a keyword before the search changes
    nothing. *)
Theorem keyword_tables_clean :
  Forall (fun e => clean_keywords (snd e)) PRIORITY_KEYWORDS /\
  Forall (fun e => clean_keywords (snd e)) CATEGORY_KEYWORDS /\
  clean_keywords MEMBER_EXPERIENCE_KEYWORDS.
Proof.
  split; [|split].
  - repeat (apply List.Forall_cons; [clean_keywords|]). apply List.Forall_nil.
  - repeat (apply List.Forall_cons; [clean_keywords|]). apply List.Forall_nil.
  - clean_keywords.
Qed.

End TableFacts.

(** ** The server's analysis *)
Module EdgeFacts.
Import JSString JSStringMore JSStringFacts JSObject Spec SpecMore.
Import PriorityFacts.

Lemma server_scanKeywords_true lowerText keywords :
  Edge.scanKeywords lowerText keywords = true <->
  exists kw, In kw keywords /\ includes lowerText kw = true.
Proof.
  induction keywords as [|k rest IH]; simpl.
  - split; [discriminate | intros [kw [[] _]]].
  - destruct (includes lowerText k) eqn:Hk.
    + split; [intros _; exists k; auto | reflexivity].
    + rewrite IH. split.
      * intros [kw [Hin Hkw]]. exists kw. auto.
      * intros [kw [[<- | Hin] Hkw]]; [congruence | exists kw; auto].
Qed.

(** A hit of the server in a list of keywords is a hit of the client in any
    list of lower-case keywords that contains them. *)
Lemma server_hit_is_client_hit lowerText server client :
  incl server client -> Forall lowercase client ->
  Edge.scanKeywords lowerText server = true ->
  Engine.scanKeywords lowerText client = true.
Proof.
  intros Hincl Hlow. rewrite server_scanKeywords_true, PriorityFacts.scanKeywords_true.
  intros [kw [Hin Hkw]]. exists kw. split; [now apply Hincl|].
  pose proof (proj1 (List.Forall_forall _ _) Hlow kw (Hincl kw Hin)) as Hl.
  unfold lowercase in Hl. now rewrite Hl.
Qed.

Ltac included :=
  let kw := fresh "kw" in
  let Hin := fresh "Hin" in
  intros kw Hin; simpl in Hin;
  repeat (destruct Hin as [<- | Hin]; [simpl; auto 20|]); destruct Hin.

Ltac all_lowercase :=
  repeat (apply List.Forall_cons; [reflexivity|]); apply List.Forall_nil.

(** The server and the client agree on what is urgent: a text the server
    rates critical the client rates critical, and a text the server rates
    high the client rates high or critical. *)
Theorem server_priority_agrees text :
  (Edge.detectPriorityFromText text = "critical" ->
   Engine.detectPriority text = Rules.critical) /\
  (Edge.detectPriorityFromText text = "high" ->
   Engine.detectPriority text = Rules.critical \/
   Engine.detectPriority text = Rules.high).
Proof.
  unfold Edge.detectPriorityFromText, Engine.detectPriority,
    Edge.PRIORITY_KEYWORDS, Rules.PRIORITY_KEYWORDS.
  cbn [Edge.scanTiers Engine.scanTiers].
  match goal with
  | |- context [if Edge.scanKeywords ?t ?e1 then _
                else if Edge.scanKeywords ?t ?e2 then _ else _] =>
    match goal with
    | |- context [if Engine.scanKeywords t ?c1 then _
                  else if Engine.scanKeywords t ?c2 then _ else _] =>
      assert (H1 : Edge.scanKeywords t e1 = true ->
                   Engine.scanKeywords t c1 = true)
        by (apply server_hit_is_client_hit; [included | all_lowercase]);
      assert (H2 : Edge.scanKeywords t e2 = true ->
                   Engine.scanKeywords t c2 = true)
        by (apply server_hit_is_client_hit; [included | all_lowercase]);
      destruct (Edge.scanKeywords t e1);
      [rewrite (H1 eq_refl); split; [reflexivity | discriminate]|];
      destruct (Edge.scanKeywords t e2);
      [rewrite (H2 eq_refl); split;
         [discriminate
         | intros _; destruct (Engine.scanKeywords t c1); auto]|]
    end
  end.
  repeat match goal with
  | |- context [if Edge.scanKeywords ?t ?e then _ else _] =>
      destruct (Edge.scanKeywords t e)
  end; split; discriminate.
Qed.

Lemma substring0_prefix n s : prefix_of (substring0 n s) s.
Proof.
  unfold prefix_of. revert s. induction n as [|n IH]; intros s.
  - exists s. reflexivity.
  - destruct s as [|c s]; [exists ""; reflexivity|].
    destruct (IH s) as [rest Hrest]. exists rest.
    change (String c s = String c (substring0 n s +:+ rest)).
    now rewrite <- Hrest.
Qed.

Lemma substring0_length n s :
  String.length (substring0 n s) = Nat.min n (String.length s).
Proof.
  revert s. induction n as [|n IH]; intros s; [reflexivity|].
  destruct s as [|c s]; simpl; [reflexivity | now rewrite IH].
Qed.

Lemma server_scanCategories_range lowerText entries bestMatch maxMatches :
  Edge.scanCategories lowerText entries bestMatch maxMatches = bestMatch \/
  In (Edge.scanCategories lowerText entries bestMatch maxMatches)
     (map fst entries).
Proof.
  revert bestMatch maxMatches.
  induction entries as [|[c kws] rest IH]; intros bestMatch maxMatches; simpl.
  - now left.
  - destruct (maxMatches <? Edge.countMatches lowerText kws 0)%nat.
    + destruct (IH c (Edge.countMatches lowerText kws 0)) as [-> | Hin]; auto.
    + destruct (IH bestMatch maxMatches) as [-> | Hin]; auto.
Qed.

Lemma detectPriorityFromText_critical text :
  Edge.detectPriorityFromText text = "critical" <->
  exists kw, In kw (serverKeywords "critical") /\
             substring_of kw (toLowerCase text).
Proof.
  replace (serverKeywords "critical")
    with (snd (List.hd ("", []) Edge.PRIORITY_KEYWORDS)) by reflexivity.
  unfold Edge.detectPriorityFromText, Edge.PRIORITY_KEYWORDS.
  cbn [Edge.scanTiers List.hd snd].
  match goal with
  | |- context [Edge.scanKeywords ?t ?k] =>
      pose proof (server_scanKeywords_true t k) as Hk;
      destruct (Edge.scanKeywords t k)
  end.
  - split; [intros _ | reflexivity].
    destruct (proj1 Hk eq_refl) as [kw [Hin Hkw]].
    exists kw. split; [exact Hin | now apply includes_spec].
  - split.
    + repeat match goal with
      | |- context [if Edge.scanKeywords ?t ?k then _ else _] =>
          destruct (Edge.scanKeywords t k)
      end; discriminate.
    + intros [kw [Hin Hkw]]. apply includes_spec in Hkw.
      assert (false = true) by (apply Hk; eauto). discriminate.
Qed.

(** The fallback analysis of the server is consistent with its tables: the
    title is the first 60 code units of the description, the priority has
    an SLA rule of its own, so that the default rule is never needed, the
    department is the one the routing table gives for the detected
    category, and immediate attention is asked exactly when the lower-cased
    description has a keyword of the critical tier. *)
Theorem fallbackAnalysis_consistent description :
  let a := Edge.fallbackAnalysis description in
  prefix_of (Edge.title a) description /\
  String.length (Edge.title a) = Nat.min 60 (String.length description) /\
  (exists rule,
      In (Edge.analysisPriority a, rule) Edge.SLA_RULES /\
      Edge.sla a = Entry rule) /\
  (exists routing,
      In (Edge.category a, routing) Edge.DEPARTMENT_ROUTING /\
      Edge.analysisDepartment a = Edge.department routing) /\
  (Edge.needsImmediateAttention a = true <->
   exists kw, In kw (serverKeywords "critical") /\
              substring_of kw (toLowerCase description)).
Proof.
  intros a. unfold a, Edge.fallbackAnalysis.
  cbn [Edge.title Edge.analysisPriority Edge.sla Edge.category
       Edge.analysisDepartment Edge.needsImmediateAttention].
  split; [apply substring0_prefix|].
  split; [apply substring0_length|].
  split; [|split].
  - unfold Edge.detectPriorityFromText, Edge.PRIORITY_KEYWORDS.
    cbn [Edge.scanTiers].
    repeat match goal with
    | |- context [if Edge.scanKeywords ?t ?k then _ else _] =>
        destruct (Edge.scanKeywords t k)
    end; eexists; (split; [|reflexivity]); simpl; auto 6.
  - assert (Hin : In (Edge.detectCategoryFromText description)
                     (map fst Edge.CATEGORY_KEYWORDS)).
    { unfold Edge.detectCategoryFromText.
      destruct (server_scanCategories_range (toLowerCase description)
                  Edge.CATEGORY_KEYWORDS "Customer Service" 0)
        as [-> | H]; [simpl; auto | exact H]. }
    simpl in Hin.
    repeat (destruct Hin as [<- | Hin];
            [eexists; (split; [|reflexivity]); simpl; auto 12|]).
    destruct Hin.
  - rewrite String.eqb_eq. apply detectPriorityFromText_critical.
Qed.

End EdgeFacts.

(** ** Titles *)
Module TitleFacts.
Import JSString JSStringMore JSStringFacts Spec SpecMore Title.

Lemma split_not_nil sep s : split sep s <> [].
Proof.
  destruct s as [|c s]; simpl; [discriminate|].
  destruct (Ascii.eqb c sep); [discriminate|].
  destruct (split sep s); discriminate.
Qed.

Lemma join_cons_unit sep c w ws :
  join sep (String c w :: ws) = String c (join sep (w :: ws)).
Proof. destruct ws; reflexivity. Qed.

(** Joining the pieces of a split with the separator gives the string
    back. *)
Lemma join_split sep s : join (String sep "") (split sep s) = s.
Proof.
  induction s as [|c s IH]; [reflexivity|].
  cbn [split]. destruct (Ascii.eqb_spec c sep) as [->|Hne].
  - pose proof (split_not_nil sep s) as Hnil.
    destruct (split sep s) as [|w ws]; [contradiction|].
    change (String sep (join (String sep "") (w :: ws)) = String sep s).
    now rewrite IH.
  - pose proof (split_not_nil sep s) as Hnil.
    destruct (split sep s) as [|w ws]; [contradiction|].
    rewrite join_cons_unit. now rewrite IH.
Qed.

(** The first [n] pieces of a split, joined again, are the part of the
    string before its [n]-th separator, or the whole string when it has
    fewer separators. *)
Lemma join_firstn_split sep n s :
  (1 <= n)%nat ->
  let words := join (String sep "") (firstn n (split sep s)) in
  exists rest,
    s = words +:+ rest /\
    (occurrences sep words <= n - 1)%nat /\
    (rest = "" \/
     occurrences sep words = (n - 1)%nat /\ exists r, rest = String sep r).
Proof.
  revert n. induction s as [|c s IH]; intros n Hn words.
  - exists "". destruct n as [|n]; [lia|].
    subst words. simpl. rewrite firstn_nil. simpl.
    split; [reflexivity | split; [lia | now left]].
  - subst words. cbn [split].
    pose proof (split_not_nil sep s) as Hnil.
    destruct (Ascii.eqb_spec c sep) as [->|Hne].
    + destruct n as [|[|m]]; [lia| |].
      * exists (String sep s). simpl.
        split; [reflexivity | split; [lia | right; eauto]].
      * destruct (IH (S m) ltac:(lia)) as [rest [Hs [Hocc Hrest]]].
        cbn [firstn] in *.
        destruct (split sep s) as [|w ws]; [contradiction|].
        cbn [firstn] in *.
        change (join (String sep "") ("" :: w :: firstn m ws))
          with (String sep (join (String sep "") (w :: firstn m ws))).
        exists rest. cbn [occurrences]. rewrite Ascii.eqb_refl.
        split; [|split].
        -- change (String sep s
                   = String sep (join (String sep "") (w :: firstn m ws)
                                 +:+ rest)).
           now rewrite <- Hs.
        -- simpl in *. lia.
        -- destruct Hrest as [-> | [Ho Hr]]; [now left | right].
           split; [simpl in *; lia | exact Hr].
    + destruct n as [|m]; [lia|].
      destruct (IH (S m) ltac:(lia)) as [rest [Hs [Hocc Hrest]]].
      destruct (split sep s) as [|w ws]; [contradiction|].
      cbn [firstn] in *. rewrite join_cons_unit.
      exists rest. cbn [occurrences].
      apply Ascii.eqb_neq in Hne. rewrite Hne.
      split; [|split].
      * change (String c s
                = String c (join (String sep "") (w :: firstn m ws) +:+ rest)).
        now rewrite <- Hs.
      * simpl in *. lia.
      * destruct Hrest as [-> | [Ho Hr]]; [now left | right].
        split; [simpl in *; lia | exact Hr].
Qed.

Lemma append_empty s : s +:+ "" = s.
Proof.
  induction s as [|c s IH]; [reflexivity|].
  change (String c (s +:+ "") = String c s). now rewrite IH.
Qed.

Lemma occurrences_app c s t :
  occurrences c (s +:+ t) = (occurrences c s + occurrences c t)%nat.
Proof.
  induction s as [|d s IH]; [reflexivity|].
  change (occurrences c (String d (s +:+ t))
          = (occurrences c (String d s) + occurrences c t)%nat).
  cbn [occurrences]. rewrite IH. lia.
Qed.

Lemma append_unit_assoc s c r : s +:+ String c r = (s +:+ String c "") +:+ r.
Proof.
  induction s as [|d s IH]; [reflexivity|].
  change (String d (s +:+ String c r)
          = String d ((s +:+ String c "") +:+ r)).
  now rewrite IH.
Qed.

(** A description with none of the words the patterns look for gets the
    default title: the category, a colon, the description up to its eighth
    space, and an ellipsis when the description is longer than 50 code
    units, whether or not anything was cut.  A description with at most
    seven spaces is copied whole. *)
Theorem generateTicketTitle_default description categoryName :
  Forall (fun w => ~ substring_of w (toLowerCase description)) patternWords ->
  exists words,
    generateTicketTitle description categoryName
    = categoryName +:+ ": " +:+ words +:+
      (if (50 <? String.length description)%nat then "..." else "") /\
    prefix_of words description /\
    (occurrences " " words <= 7)%nat /\
    (words = description \/
     occurrences " " words = 7%nat /\ prefix_of (words +:+ " ") description) /\
    ((occurrences " " description <= 7)%nat -> words = description).
Proof.
  intros Hnone.
  assert (Hno : forall w, In w patternWords ->
                          includes (toLowerCase description) w = false).
  { intros w Hin.
    pose proof (proj1 (List.Forall_forall _ _) Hnone w Hin) as Hw.
    destruct (includes (toLowerCase description) w) eqn:Hi; [|reflexivity].
    exfalso. apply Hw. now apply includes_spec. }
  exists (join " " (firstn 8 (split " " description))).
  destruct (join_firstn_split " " 8 description ltac:(lia))
    as [rest [Hs [Hocc Hrest]]].
  cbv zeta in Hs, Hocc, Hrest.
  set (words := join " " (firstn 8 (split " " description))) in *.
  split; [|split; [|split; [|split]]].
  - unfold generateTicketTitle. fold words.
    repeat match goal with
    | |- context [includes (toLowerCase description) ?w] =>
        rewrite (Hno w) by (simpl; auto 25)
    end.
    reflexivity.
  - exists rest. exact Hs.
  - simpl in Hocc. exact Hocc.
  - destruct Hrest as [-> | [Ho [r ->]]].
    + left. rewrite append_empty in Hs. now symmetry.
    + right. split; [exact Ho|]. exists r.
      rewrite Hs. apply append_unit_assoc.
  - intros Hfew. destruct Hrest as [-> | [Ho [r ->]]].
    + rewrite append_empty in Hs. now symmetry.
    + exfalso. rewrite Hs, occurrences_app in Hfew.
      cbn [occurrences] in Hfew. rewrite Ascii.eqb_refl in Hfew.
      simpl in Ho. lia.
Qed.

Lemma generateTicketTitle_default_witness :
  exists words,
    generateTicketTitle "The door of studio two is stuck" "Customer Service"
    = "Customer Service" +:+ ": " +:+ words +:+ "" /\
    words = "The door of studio two is stuck".
Proof.
  destruct (generateTicketTitle_default "The door of studio two is stuck"
              "Customer Service")
    as [words [Htitle [_ [_ [_ Hwhole]]]]].
  - repeat (apply List.Forall_cons;
            [let H := fresh in
             intros H; apply includes_spec in H; vm_compute in H;
             discriminate H|]).
    apply List.Forall_nil.
  - exists words. split; [exact Htitle|]. apply Hwhole. vm_compute. lia.
Defined.

End TitleFacts.

(** ** Tags *)
Module TagFacts.
Import JSString JSStringMore Spec SpecMore TagEditor.

Lemma trimStart_noLeadingSpace s : noLeadingSpace (trimStart s).
Proof.
  induction s as [|c s IH]; simpl; [exact I|].
  destruct (isWhiteSpace c) eqn:Hc; [exact IH | exact Hc].
Qed.

Lemma trimStart_fixed s : noLeadingSpace s -> trimStart s = s.
Proof. destruct s as [|c s]; simpl; [reflexivity | now intros ->]. Qed.

Lemma trimEnd_idem s : trimEnd (trimEnd s) = trimEnd s.
Proof.
  induction s as [|c s IH]; [reflexivity|].
  cbn [trimEnd]. destruct (trimEnd s) as [|d r] eqn:Hr.
  - destruct (isWhiteSpace c) eqn:Hc; [reflexivity|].
    cbn [trimEnd]. now rewrite Hc.
  - cbn [trimEnd]. cbn [trimEnd] in IH. rewrite IH. reflexivity.
Qed.

Lemma trimEnd_noLeadingSpace s :
  noLeadingSpace s -> noLeadingSpace (trimEnd s).
Proof.
  destruct s as [|c s]; [trivial|]. simpl. intros Hc.
  destruct (trimEnd s); rewrite ?Hc; exact Hc.
Qed.

Lemma trim_idem s : trim (trim s) = trim s.
Proof.
  unfold trim.
  rewrite (trimStart_fixed (trimEnd (trimStart s))).
  - apply trimEnd_idem.
  - apply trimEnd_noLeadingSpace, trimStart_noLeadingSpace.
Qed.

Lemma trimEnd_empty s : trimEnd s = "" <-> blank s = true.
Proof.
  induction s as [|c s IH]; simpl; [tauto|].
  destruct (trimEnd s) as [|d r].
  - destruct (isWhiteSpace c); simpl.
    + rewrite <- IH. tauto.
    + split; discriminate.
  - rewrite andb_true_iff, <- IH. split; [discriminate | intros [_ H]; discriminate H].
Qed.

Lemma blank_trimStart s : blank (trimStart s) = blank s.
Proof.
  induction s as [|c s IH]; simpl; [reflexivity|].
  destruct (isWhiteSpace c) eqn:Hc; simpl; [exact IH | now rewrite Hc].
Qed.

(** Trimming leaves nothing exactly of the strings of white space. *)
Lemma trim_empty s : trim s = "" <-> blank s = true.
Proof. unfold trim. now rewrite trimEnd_empty, blank_trimStart. Qed.

Lemma existsb_eqb_In x (l : list string) :
  existsb (String.eqb x) l = true <-> In x l.
Proof.
  rewrite existsb_exists. split.
  - intros [y [Hin Heq]]. apply String.eqb_eq in Heq. now subst.
  - intros Hin. exists x. split; [exact Hin | apply String.eqb_refl].
Qed.

Lemma filter_neq_In (l : list string) x y :
  In y (List.filter (fun t => negb (String.eqb t x)) l) <-> In y l /\ y <> x.
Proof.
  rewrite filter_In, negb_true_iff, String.eqb_neq. tauto.
Qed.

Lemma filter_neq_absent (l : list string) x :
  ~ In x l -> List.filter (fun t => negb (String.eqb t x)) l = l.
Proof.
  induction l as [|a l IH]; simpl; [reflexivity|]. intros Hx.
  destruct (String.eqb_spec a x) as [->|Hne]; simpl.
  - exfalso. apply Hx. now left.
  - rewrite IH; [reflexivity | tauto].
Qed.

(** [addTag] in its three cases: an input of white space only, or one whose
    trimmed text is a tag already, changes nothing; any other input puts
    its trimmed text at the end of the tags, clears the input field and
    ends the editing. *)
Theorem addTag_cases st :
  let t := trim (newTag st) in
  (blank (newTag st) = true -> addTag st = st) /\
  (In t (tags st) -> addTag st = st) /\
  (blank (newTag st) = false -> ~ In t (tags st) ->
   addTag st
   = {| tags := app (tags st) [t]; newTag := ""; editingField := None |}).
Proof.
  intros t. unfold addTag. fold t.
  split; [|split].
  - intros Hb. apply trim_empty in Hb. fold t in Hb. now rewrite Hb.
  - intros Hin. apply existsb_eqb_In in Hin. rewrite Hin.
    now rewrite andb_false_r.
  - intros Hb Hin.
    assert (Ht : t <> "").
    { intros Ht. apply trim_empty in Ht. congruence. }
    apply String.eqb_neq in Ht. rewrite Ht.
    destruct (existsb (String.eqb t) (tags st)) eqn:He.
    + apply existsb_eqb_In in He. contradiction.
    + reflexivity.
Qed.

(** Tags that are distinct, not empty and trimmed stay so under [addTag]
    and under [removeTag]. *)
Theorem tag_handlers_keep_tags_clean st tag :
  clean_tags (tags st) ->
  clean_tags (tags (addTag st)) /\ clean_tags (tags (removeTag tag st)).
Proof.
  intros [Hnd Hall]. split.
  - unfold addTag.
    destruct (String.eqb_spec (trim (newTag st)) "") as [He|Hne]; simpl;
      [split; assumption|].
    destruct (existsb (String.eqb (trim (newTag st))) (tags st)) eqn:Hex;
      simpl; [split; assumption|].
    assert (Hnotin : ~ In (trim (newTag st)) (tags st)).
    { intros Hin. apply existsb_eqb_In in Hin. congruence. }
    split.
    + apply List.NoDup_app; [exact Hnd | |].
      * apply List.NoDup_cons; [intros [] | apply List.NoDup_nil].
      * intros x Hx [<- | []]. contradiction.
    + apply List.Forall_app. split; [exact Hall|].
      apply List.Forall_cons; [|apply List.Forall_nil].
      split; [exact Hne | apply trim_idem].
  - unfold removeTag. simpl. split.
    + now apply List.NoDup_filter.
    + apply List.Forall_forall. intros x Hx. apply filter_In in Hx.
      apply (proj1 (List.Forall_forall _ _) Hall). tauto.
Qed.

Lemma tag_handlers_keep_tags_clean_witness :
  clean_tags
    (tags (addTag {| tags := ["support"; "high"]; newTag := "  parking ";
                     editingField := None |})).
Proof.
  apply (tag_handlers_keep_tags_clean
           {| tags := ["support"; "high"]; newTag := "  parking ";
              editingField := None |} "").
  split.
  - simpl. LookupMore.distinct_strings.
  - simpl. repeat (apply List.Forall_cons;
                   [split; [discriminate | reflexivity]|]).
    apply List.Forall_nil.
Defined.

(** [removeTag] removes the tag and nothing else, and undoes [addTag]: after
    adding an input whose trimmed text was no tag, removing that text
    gives the tags back. *)
Theorem removeTag_undoes_addTag st :
  (forall tag t,
      In t (tags (removeTag tag st)) <-> In t (tags st) /\ t <> tag) /\
  (~ In (trim (newTag st)) (tags st) ->
   tags (removeTag (trim (newTag st)) (addTag st)) = tags st).
Proof.
  split.
  - intros tag t. unfold removeTag. simpl. apply filter_neq_In.
  - intros Hnotin. unfold removeTag, addTag. cbn [tags updateTags].
    destruct (negb (String.eqb (trim (newTag st)) "")
              && negb (existsb (String.eqb (trim (newTag st))) (tags st)));
      cbn [tags updateTags].
    + rewrite List.filter_app, filter_neq_absent by exact Hnotin.
      simpl. rewrite String.eqb_refl. simpl. apply List.app_nil_r.
    + now apply filter_neq_absent.
Qed.

End TagFacts.

(** ** The quick-feedback chips *)
Module FeedbackFacts.
Import Spec SpecMore Feedback TagFacts.

Lemma toggle_present current item :
  In item current ->
  toggle current item
  = List.filter (fun i => negb (String.eqb i item)) current.
Proof.
  intros Hin. unfold toggle. apply existsb_eqb_In in Hin. now rewrite Hin.
Qed.

Lemma toggle_absent current item :
  ~ In item current -> toggle current item = app current [item].
Proof.
  intros Hin. unfold toggle.
  destruct (existsb (String.eqb item) current) eqn:He; [|reflexivity].
  apply existsb_eqb_In in He. contradiction.
Qed.

Lemma In_dec_string (x : string) l : In x l \/ ~ In x l.
Proof. destruct (in_dec String.string_dec x l); auto. Qed.

(** A click on a chip flips it and nothing else: the item is in the
    selected list afterwards exactly when it was not before, every other
    item is in it exactly when it was, the list of the other type is as it
    was, and a list without repetition stays without repetition. *)
Theorem toggleQuickFeedback_flips type item prev :
  let next := toggleQuickFeedback type item prev in
  (In item (selected type next) <-> ~ In item (selected type prev)) /\
  (forall other, other <> item ->
      (In other (selected type next) <-> In other (selected type prev))) /\
  unselected type next = unselected type prev /\
  (List.NoDup (selected type prev) -> List.NoDup (selected type next)).
Proof.
  intros next.
  assert (Hsel : selected type next = toggle (selected type prev) item)
    by (destruct type; reflexivity).
  rewrite !Hsel. set (current := selected type prev).
  split; [|split; [|split]].
  - destruct (In_dec_string item current) as [Hin|Hin].
    + rewrite (toggle_present _ _ Hin), filter_neq_In. tauto.
    + rewrite (toggle_absent _ _ Hin), in_app_iff. simpl. tauto.
  - intros other Hne. destruct (In_dec_string item current) as [Hin|Hin].
    + rewrite (toggle_present _ _ Hin), filter_neq_In. tauto.
    + rewrite (toggle_absent _ _ Hin), in_app_iff. simpl.
      split; [intros [H | [H | []]]; [exact H | congruence] | auto].
  - destruct type; reflexivity.
  - intros Hnd. destruct (In_dec_string item current) as [Hin|Hin].
    + rewrite (toggle_present _ _ Hin). now apply List.NoDup_filter.
    + rewrite (toggle_absent _ _ Hin).
      apply List.NoDup_app; [exact Hnd | |].
      * apply List.NoDup_cons; [intros [] | apply List.NoDup_nil].
      * intros x Hx [<- | []]. contradiction.
Qed.

Lemma filter_neq_move (l : list string) x :
  List.NoDup l -> In x l ->
  Permutation (app (List.filter (fun i => negb (String.eqb i x)) l) [x]) l.
Proof.
  induction l as [|a l IH]; [intros _ []|].
  intros Hnd Hin. inversion Hnd as [|? ? Ha Hl]; subst. simpl.
  destruct (String.eqb_spec a x) as [->|Hne]; simpl.
  - rewrite filter_neq_absent by exact Ha.
    symmetry. apply Permutation_cons_append.
  - destruct Hin as [Heq | Hin]; [contradiction|].
    constructor. now apply IH.
Qed.

(** Removing from a list without repetition the one occurrence of an item
    leaves what stood before it followed by what stood after it. *)
Lemma filter_neq_split (l : list string) x :
  List.NoDup l -> In x l ->
  exists before after,
    l = app before (x :: after) /\
    List.filter (fun i => negb (String.eqb i x)) l = app before after.
Proof.
  intros Hnd Hin. destruct (in_split _ _ Hin) as [before [after ->]].
  exists before, after. split; [reflexivity|].
  pose proof (NoDup_remove_2 _ _ _ Hnd) as Hnot.
  rewrite List.filter_app. cbn [List.filter].
  rewrite String.eqb_refl. cbn [negb].
  rewrite !filter_neq_absent; [reflexivity | |];
    intros H; apply Hnot; apply in_app_iff; auto.
Qed.

(** Two clicks on the same chip of a list without repetition: the list
    holds the same items as before; an item that was not selected is not
    selected again and the list is as it was; an item that was selected is
    selected again and has moved to the end of the list, the other items
    keeping their order. *)
Theorem toggleQuickFeedback_twice type item prev :
  List.NoDup (selected type prev) ->
  let twice :=
    toggleQuickFeedback type item (toggleQuickFeedback type item prev) in
  Permutation (selected type twice) (selected type prev) /\
  (~ In item (selected type prev) ->
   selected type twice = selected type prev) /\
  (In item (selected type prev) ->
   exists before after,
     selected type prev = app before (item :: after) /\
     selected type twice = app before (app after [item])).
Proof.
  intros Hnd twice.
  assert (Hsel : selected type twice
                 = toggle (toggle (selected type prev) item) item)
    by (destruct type; reflexivity).
  rewrite !Hsel. set (current := selected type prev) in *.
  assert (Habsent : ~ In item current ->
                    toggle (toggle current item) item = current).
  { intros Hin. rewrite (toggle_absent _ _ Hin).
    rewrite toggle_present by (apply in_app_iff; simpl; auto).
    rewrite List.filter_app, filter_neq_absent by exact Hin.
    simpl. rewrite String.eqb_refl. simpl. apply List.app_nil_r. }
  assert (Hpresent : In item current ->
                     toggle (toggle current item) item
                     = app (List.filter (fun i => negb (String.eqb i item))
                                        current) [item]).
  { intros Hin. rewrite (toggle_present _ _ Hin).
    apply toggle_absent. rewrite filter_neq_In. tauto. }
  split; [|split; [exact Habsent|]].
  - destruct (In_dec_string item current) as [Hin|Hin].
    + rewrite (Hpresent Hin). now apply filter_neq_move.
    + now rewrite Habsent.
  - intros Hin. rewrite (Hpresent Hin).
    destruct (filter_neq_split current item Hnd Hin)
      as [before [after [Hcur Hfilter]]].
    exists before, after. split; [exact Hcur|].
    rewrite Hfilter. symmetry. apply List.app_assoc.
Qed.

Lemma toggleQuickFeedback_twice_witness :
  exists before after,
    ["Great energy"; "On time"] = app before ("Great energy" :: after) /\
    selected positive
      (toggleQuickFeedback positive "Great energy"
         (toggleQuickFeedback positive "Great energy"
            {| positiveHighlights := ["Great energy"; "On time"];
               improvementAreas := [] |}))
    = app before (app after ["Great energy"]).
Proof.
  destruct (toggleQuickFeedback_twice positive "Great energy"
              {| positiveHighlights := ["Great energy"; "On time"];
                 improvementAreas := [] |})
    as [_ [_ Hmoved]].
  - simpl. LookupMore.distinct_strings.
  - apply Hmoved. simpl. auto.
Defined.

End FeedbackFacts.

(** ** The template gallery *)
Module GalleryFacts.
Import JSString Spec SpecMore Gallery.

(** With no filter set, the empty search, the category "all" and no
    priority, or the empty one, the gallery lists every template; whatever
    the filters, it lists templates of the collection, in their order, each
    of which has the category and the priority asked for. *)
Theorem filteredTemplates_filters searchQuery categoryFilter priorityFilter
    (TICKET_TEMPLATES : list TicketTemplate) :
  filteredTemplates "" "all" None TICKET_TEMPLATES = TICKET_TEMPLATES /\
  filteredTemplates "" "all" (Some "") TICKET_TEMPLATES = TICKET_TEMPLATES /\
  sublist (filteredTemplates searchQuery categoryFilter priorityFilter
             TICKET_TEMPLATES) TICKET_TEMPLATES /\
  Forall (fun t =>
            (categoryFilter = "all" \/ category t = categoryFilter) /\
            (forall f, priorityFilter = Some f -> f <> "" -> priority t = f))
         (filteredTemplates searchQuery categoryFilter priorityFilter
            TICKET_TEMPLATES).
Proof.
  unfold filteredTemplates. split; [|split; [|split]].
  - induction TICKET_TEMPLATES as [|t l IH]; simpl; [reflexivity|].
    f_equal. exact IH.
  - induction TICKET_TEMPLATES as [|t l IH]; simpl; [reflexivity|].
    f_equal. exact IH.
  - induction TICKET_TEMPLATES as [|t l IH]; simpl; [constructor|].
    match goal with |- context [if ?b then _ else _] => destruct b end;
      now constructor.
  - apply List.Forall_forall. intros t Ht. apply filter_In in Ht.
    destruct Ht as [_ Ht]. rewrite !andb_true_iff in Ht.
    destruct Ht as [[_ Hc] Hp]. split.
    + unfold matchesCategory in Hc. rewrite orb_true_iff in Hc.
      destruct Hc as [Hc | Hc]; apply String.eqb_eq in Hc; auto.
    + intros f -> Hf. unfold matchesPriority in Hp.
      rewrite orb_true_iff in Hp. destruct Hp as [Hp | Hp];
        apply String.eqb_eq in Hp; [contradiction | exact Hp].
Qed.

(** The gallery shows the favourites first: the sorted list holds the same
    templates as the filtered one, it is a run of favourites followed by a
    run of templates that are not, and within each run the templates keep
    the order they had. *)
Theorem sortedTemplates_favourites_first filteredTemplates
    (favoriteTemplates : gset string) :
  Permutation (sortedTemplates filteredTemplates favoriteTemplates)
              filteredTemplates /\
  exists favorites nonFavorites,
    sortedTemplates filteredTemplates favoriteTemplates
    = app favorites nonFavorites /\
    Forall (fun t => id t ∈ favoriteTemplates) favorites /\
    Forall (fun t => id t ∉ favoriteTemplates) nonFavorites /\
    sublist favorites filteredTemplates /\
    sublist nonFavorites filteredTemplates.
Proof.
  unfold sortedTemplates. split.
  - induction filteredTemplates as [|t l IH]; simpl; [constructor|].
    destruct (bool_decide (id t ∈ favoriteTemplates)); simpl.
    + now constructor.
    + etransitivity; [symmetry; apply Permutation_middle|].
      now constructor.
  - eexists. eexists. split; [reflexivity|].
    split; [|split; [|split]].
    + apply List.Forall_forall. intros t Ht. apply filter_In in Ht.
      destruct Ht as [_ Ht]. now apply bool_decide_eq_true in Ht.
    + apply List.Forall_forall. intros t Ht. apply filter_In in Ht.
      destruct Ht as [_ Ht]. apply negb_true_iff in Ht.
      now apply bool_decide_eq_false in Ht.
    + induction filteredTemplates as [|t l IH]; simpl; [constructor|].
      destruct (bool_decide (id t ∈ favoriteTemplates)); now constructor.
    + induction filteredTemplates as [|t l IH]; simpl; [constructor|].
      destruct (bool_decide (id t ∈ favoriteTemplates)); now constructor.
Qed.

Lemma elem_of_toggleFavorite templateId (prev : gset string) x :
  x ∈ toggleFavorite templateId prev <->
  (x = templateId /\ templateId ∉ prev) \/ (x <> templateId /\ x ∈ prev).
Proof.
  unfold toggleFavorite. case_bool_decide as Hc.
  - rewrite elem_of_difference, elem_of_singleton.
    destruct (decide (x = templateId)) as [->|Hne]; intuition congruence.
  - rewrite elem_of_union, elem_of_singleton.
    destruct (decide (x = templateId)) as [->|Hne]; intuition congruence.
Qed.

(** A click on the bookmark of a template flips it and nothing else, and a
    second click undoes the first. *)
Theorem toggleFavorite_flips templateId (prev : gset string) :
  (templateId ∈ toggleFavorite templateId prev <-> templateId ∉ prev) /\
  (forall other, other <> templateId ->
      (other ∈ toggleFavorite templateId prev <-> other ∈ prev)) /\
  toggleFavorite templateId (toggleFavorite templateId prev) = prev.
Proof.
  split; [|split].
  - rewrite elem_of_toggleFavorite. intuition congruence.
  - intros other Hne. rewrite elem_of_toggleFavorite. intuition congruence.
  - apply set_eq. intros x. rewrite !elem_of_toggleFavorite.
    destruct (decide (x = templateId)) as [->|Hne];
      destruct (decide (templateId ∈ prev)); intuition congruence.
Qed.

End GalleryFacts.
